(** * spain_route_map: a shallow embedding of scripts/spain_route_map.py

    The script builds a driving itinerary over a fixed list of places with
    the Google Directions and Static Maps web APIs.  Python [str] values are
    modelled by [string], holding the UTF-8 encoding of the text (the bytes
    that [urllib.parse.quote] works on); Python [int] by [Z]; the values
    that [json.loads] produces by the inductive type [json]; exceptions and
    [sys.exit] by the [outcome] type; printing, network requests and file
    writes by a log of events. *)

From Stdlib Require Import ZArith List String Ascii Bool Lia PeanoNat.
From Stdlib Require Import DecimalString Permutation.
From Stdlib Require Floats.SpecFloat.
Import ListNotations.

Local Open Scope string_scope.
Local Open Scope Z_scope.

(** ** Strings *)

Module Str.

(** [c in s] on characters. *)
Fixpoint mem (c : ascii) (s : string) : bool :=
  match s with
  | EmptyString => false
  | String d s' => Ascii.eqb c d || mem c s'
  end.

(** [str(n)] for a Python int. *)
Definition of_Z (n : Z) : string := NilZero.string_of_int (Z.to_int n).

(** [sep.join(parts)]. *)
Definition join (sep : string) (parts : list string) : string :=
  String.concat sep parts.

Fixpoint all (p : ascii -> bool) (s : string) : bool :=
  match s with
  | EmptyString => true
  | String c s' => p c && all p s'
  end.

End Str.

(** ** Percent-encoding: [urllib.parse.quote] and [_encode_param] *)

Module Quote.

(** [_ALWAYS_SAFE] of urllib.parse: the bytes never quoted. *)
Definition ALWAYS_SAFE : string :=
  "ABCDEFGHIJKLMNOPQRSTUVWXYZabcdefghijklmnopqrstuvwxyz0123456789_.-~".

Definition hex_digits : string := "0123456789ABCDEF".

Definition hex_digit (n : N) : ascii :=
  match String.get (N.to_nat n) hex_digits with
  | Some c => c
  | None => "0"%char
  end.

(** ['%{:02X}'.format(b)]. *)
Definition pct (b : ascii) : string :=
  let n := N_of_ascii b in
  String "%" (String (hex_digit (N.div n 16)) (String (hex_digit (N.modulo n 16)) "")).

(** [_Quoter.__missing__]: one byte of the UTF-8 encoded value. *)
Definition quote_byte (safe : string) (b : ascii) : string :=
  if Str.mem b ALWAYS_SAFE || Str.mem b safe then String b "" else pct b.

(** [urllib.parse.quote(value, safe=safe)] on the encoded bytes. *)
Fixpoint quote (safe : string) (value : string) : string :=
  match value with
  | EmptyString => EmptyString
  | String b rest => quote_byte safe b ++ quote safe rest
  end.

Definition default_safe : string := "-._~|,:".

(** [_encode_param(value, safe="-._~|,:")]. *)
Definition _encode_param (value : string) : string := quote default_safe value.

(** *** Percent-decoding, as the URI standard has it *)

Definition hex_val (c : ascii) : option N :=
  let n := N_of_ascii c in
  if (48 <=? n)%N && (n <=? 57)%N then Some (n - 48)%N
  else if (65 <=? n)%N && (n <=? 70)%N then Some (n - 55)%N
  else if (97 <=? n)%N && (n <=? 102)%N then Some (n - 87)%N
  else None.

(** Every ["%XY"] with hexadecimal [X], [Y] stands for the byte [0xXY];
    every other character stands for itself. *)
Fixpoint percent_decode (s : string) : string :=
  match s with
  | EmptyString => EmptyString
  | String c s' =>
      if Ascii.eqb c "%" then
        match s' with
        | String x (String y rest) =>
            match hex_val x, hex_val y with
            | Some h, Some l =>
                String (ascii_of_N (16 * h + l)) (percent_decode rest)
            | _, _ => String c (percent_decode s')
            end
        | _ => String c (percent_decode s')
        end
      else String c (percent_decode s')
  end.

(** The unreserved characters of the URI standard: letters, digits and
    the marks [-], [.], [_], [~]. *)
Definition unreserved (c : ascii) : bool :=
  let n := N_of_ascii c in
  ((65 <=? n)%N && (n <=? 90)%N) || ((97 <=? n)%N && (n <=? 122)%N)
  || ((48 <=? n)%N && (n <=? 57)%N)
  || Ascii.eqb c "-" || Ascii.eqb c "." || Ascii.eqb c "_" || Ascii.eqb c "~".

(** Characters that [_encode_param] leaves as they are. *)
Definition kept (c : ascii) : bool := unreserved c || Str.mem c default_safe.

Definition is_upper_hex (c : ascii) : bool := Str.mem c hex_digits.

(** [charwise v r]: [r] is [v] with every kept character copied and every
    other character replaced by ["%"] and its two upper-case hex digits. *)
Inductive charwise : string -> string -> Prop :=
| cw_nil : charwise "" ""
| cw_keep c v r :
    kept c = true -> charwise v r -> charwise (String c v) (String c r)
| cw_pct c x y v r :
    kept c = false ->
    is_upper_hex x = true -> is_upper_hex y = true ->
    hex_val x = Some (N.div (N_of_ascii c) 16) ->
    hex_val y = Some (N.modulo (N_of_ascii c) 16) ->
    charwise v r ->
    charwise (String c v) (String "%" (String x (String y r))).

End Quote.

(** ** Python values, exceptions and effects *)

Module Py.

(** The exception classes the script can meet.  [HostError] stands for the
    failures reported from outside the program: [URLError], [HTTPError],
    a body that is not JSON, [OSError] on the output file. *)
Inductive exn : Type :=
| RuntimeError (msg : string)
| KeyError (key : string)
| IndexError
| TypeError
| AttributeError
| ValueError
| OverflowError
| ZeroDivisionError
| UnicodeEncodeError
| HostError (what : string).

(** How a computation ends: with a value, with a raised exception, or
    with [sys.exit(code)]. *)
Inductive outcome (A : Type) : Type :=
| Ok (a : A)
| Raise (e : exn)
| Exit (code : Z).

Arguments Ok {A} a.
Arguments Raise {A} e.
Arguments Exit {A} code.

Definition bind {A B} (m : outcome A) (k : A -> outcome B) : outcome B :=
  match m with
  | Ok a => k a
  | Raise e => Raise e
  | Exit c => Exit c
  end.

(** A list comprehension whose body may raise: left to right, the first
    exception wins. *)
Fixpoint traverse {A B} (f : A -> outcome B) (l : list A) : outcome (list B) :=
  match l with
  | [] => Ok []
  | x :: l' =>
      bind (f x) (fun y => bind (traverse f l') (fun ys => Ok (y :: ys)))
  end.

#[local] Set Warnings "-register-all".

(** The values of [json.loads]: [None], [bool], [int], [float], [str],
    [list], and [dict] as the list of its items in insertion order. *)
Inductive json : Type :=
| JNull
| JBool (b : bool)
| JInt (n : Z)
| JFloat (f : SpecFloat.spec_float)
| JStr (s : string)
| JArr (items : list json)
| JObj (items : list (string * json)).

Fixpoint lookup (key : string) (items : list (string * json)) : option json :=
  match items with
  | [] => None
  | (k, v) :: rest => if String.eqb key k then Some v else lookup key rest
  end.

(** [d.get(key, default)]: only a [dict] has the method. *)
Definition get (d : json) (key : string) (default : json) : outcome json :=
  match d with
  | JObj items =>
      Ok (match lookup key items with Some v => v | None => default end)
  | _ => Raise AttributeError
  end.

(** [d[key]] with a [str] key on the value [d.get] was just called on. *)
Definition getitem_key (d : json) (key : string) : outcome json :=
  match d with
  | JObj items =>
      match lookup key items with
      | Some v => Ok v
      | None => Raise (KeyError key)
      end
  | _ => Raise TypeError
  end.

(** [l[i]] on a Python list: a negative index counts from the end. *)
Definition list_getitem {A} (l : list A) (i : Z) : outcome A :=
  let n := Z.of_nat (List.length l) in
  let j := if i <? 0 then i + n else i in
  if (0 <=? j) && (j <? n) then
    match nth_error l (Z.to_nat j) with
    | Some x => Ok x
    | None => Raise IndexError
    end
  else Raise IndexError.

(** [l[i]] where the index is a decoded JSON value: [bool] is an [int]. *)
Definition list_getitem_json {A} (l : list A) (i : json) : outcome A :=
  match i with
  | JInt n => list_getitem l n
  | JBool b => list_getitem l (if b then 1 else 0)
  | _ => Raise TypeError
  end.

(** [v[0]]. *)
Definition getitem_0 (v : json) : outcome json :=
  match v with
  | JArr items => list_getitem items 0
  | JStr (String c _) => Ok (JStr (String c ""))
  | JStr EmptyString => Raise IndexError
  | JObj _ => Raise (KeyError "0")
  | _ => Raise TypeError
  end.

Fixpoint chars (s : string) : list json :=
  match s with
  | EmptyString => []
  | String c s' => JStr (String c "") :: chars s'
  end.

(** [for x in v]: the elements of a list, the keys of a dict, the
    characters of a str (here one per byte: the script only ever fails on
    the first of them). *)
Definition iter (v : json) : outcome (list json) :=
  match v with
  | JArr items => Ok items
  | JObj items => Ok (map (fun kv => JStr (fst kv)) items)
  | JStr s => Ok (chars s)
  | _ => Raise TypeError
  end.

(** [list(range(n))]. *)
Definition range (n : nat) : list Z := map Z.of_nat (seq 0 n).

(** [places[1:-1]]. *)
Definition slice_1_m1 {A} (l : list A) : list A := removelast (tl l).

(** [l[-1]]. *)
Definition last_item {A} (l : list A) : outcome A := list_getitem l (-1).

Definition first_item {A} (l : list A) : outcome A := list_getitem l 0.

Definition is_zero_float (f : SpecFloat.spec_float) : bool :=
  match f with SpecFloat.S754_zero _ => true | _ => false end.

(** Truth value of a decoded JSON value. *)
Definition truthy (v : json) : bool :=
  match v with
  | JNull => false
  | JBool b => b
  | JInt n => negb (n =? 0)
  | JFloat f => negb (is_zero_float f)
  | JStr s => negb (String.eqb s "")
  | JArr items => match items with [] => false | _ => true end
  | JObj items => match items with [] => false | _ => true end
  end.

(** [a or b]. *)
Definition or_else (a b : json) : json := if truthy a then a else b.

(** [int(f)] on a float: towards zero. *)
Definition int_of_float (f : SpecFloat.spec_float) : outcome Z :=
  match f with
  | SpecFloat.S754_zero _ => Ok 0
  | SpecFloat.S754_infinity _ => Raise OverflowError
  | SpecFloat.S754_nan => Raise ValueError
  | SpecFloat.S754_finite s m e =>
      let a := if 0 <=? e then Z.pos m * 2 ^ e else Z.pos m / 2 ^ (- e) in
      Ok (if s then - a else a)
  end.

(** What the interpreter supplies and the script only calls: [repr] of
    floats and containers, [int] of a [str], [str] of an exception. *)
Record runtime : Type := {
  repr : json -> string;
  int_of_str : string -> outcome Z;
  str_of_exn : exn -> string
}.

(** [str(v)], as an f-string field formats it. *)
Definition str (rt : runtime) (v : json) : string :=
  match v with
  | JNull => "None"
  | JBool true => "True"
  | JBool false => "False"
  | JInt n => Str.of_Z n
  | JStr s => s
  | _ => repr rt v
  end.

(** [int(v)]. *)
Definition int (rt : runtime) (v : json) : outcome Z :=
  match v with
  | JInt n => Ok n
  | JBool b => Ok (if b then 1 else 0)
  | JFloat f => int_of_float f
  | JStr s => int_of_str rt s
  | _ => Raise TypeError
  end.

(** [v != "OK"]. *)
Definition ne_str (v : json) (s : string) : bool :=
  match v with
  | JStr t => negb (String.eqb t s)
  | _ => true
  end.

(** The UTF-8 bytes of [chr(n)]; [None] for a surrogate, which is a
    [str] that no codec will encode. *)
Definition utf8 (n : Z) : option string :=
  let b (x : Z) := ascii_of_N (Z.to_N x) in
  if n <? 128 then Some (String (b n) "")
  else if n <? 2048 then
    Some (String (b (192 + n / 64)) (String (b (128 + n mod 64)) ""))
  else if n <? 65536 then
    if (55296 <=? n) && (n <? 57344) then None
    else Some (String (b (224 + n / 4096))
               (String (b (128 + (n / 64) mod 64))
                (String (b (128 + n mod 64)) "")))
  else
    Some (String (b (240 + n / 262144))
          (String (b (128 + (n / 4096) mod 64))
           (String (b (128 + (n / 64) mod 64))
            (String (b (128 + n mod 64)) "")))).

(** [chr(n)]. *)
Definition chr (n : Z) : outcome (option string) :=
  if (0 <=? n) && (n <? 1114112) then Ok (utf8 n) else Raise ValueError.

(** *** Effects *)

(** What a run does to the outside: a line printed, a URL requested, a
    file opened with [open(path, "wb")] (created or emptied), and data
    written to an open file that is then closed. *)
Inductive event : Type :=
| Print (line : string)
| HttpGet (url : string)
| FileOpen (path : string)
| FileWrite (path : string) (data : list Byte.byte).

(** An effectful computation: how it ends and what it did, in order. *)
Definition io (A : Type) : Type := outcome A * list event.

Definition ret {A} (a : A) : io A := (Ok a, []).

Definition lift {A} (m : outcome A) : io A := (m, []).

Definition io_bind {A B} (m : io A) (k : A -> io B) : io B :=
  match m with
  | (Ok a, l) => let '(r, l') := k a in (r, (l ++ l')%list)
  | (Raise e, l) => (Raise e, l)
  | (Exit c, l) => (Exit c, l)
  end.

(** [print(line)]. *)
Definition print (line : string) : io unit := (Ok tt, [Print line]).

(** [sys.exit(code)]. *)
Definition sys_exit {A} (code : Z) : io A := (Exit code, []).

(** [try: m / except Exception as e: h e]: [SystemExit] passes through. *)
Definition try_except {A} (m : io A) (h : exn -> io A) : io A :=
  match m with
  | (Raise e, l) => let '(r, l') := h e in (r, (l ++ l')%list)
  | _ => m
  end.

(** What is outside the program: the environment variable, the two web
    services (by URL) and the file system. *)
Record world : Type := {
  environ_api_key : option string;
  urlopen_json : string -> exn + json;
  urlopen_bytes : string -> exn + list Byte.byte;
  open_file : string -> option exn;
  write_file : string -> list Byte.byte -> option exn
}.

Definition of_sum {A} (r : exn + A) : outcome A :=
  match r with inl e => Raise e | inr a => Ok a end.

Definition result {A} (m : io A) : outcome A := fst m.
Definition log {A} (m : io A) : list event := snd m.

(** The lines printed, in order. *)
Fixpoint printed (l : list event) : list string :=
  match l with
  | [] => []
  | Print s :: l' => s :: printed l'
  | _ :: l' => printed l'
  end.

(** The URLs requested, in order. *)
Fixpoint requests (l : list event) : list string :=
  match l with
  | [] => []
  | HttpGet u :: l' => u :: requests l'
  | _ :: l' => requests l'
  end.

End Py.

Declare Scope py_scope.
Delimit Scope py_scope with py.
Notation "x <- m ;; k" := (Py.bind m (fun x => k))
  (at level 61, m at next level, right associativity) : py_scope.
Notation "x <~ m ;; k" := (Py.io_bind m (fun x => k))
  (at level 61, m at next level, right associativity) : py_scope.
Notation "m ;;; k" := (Py.io_bind m (fun _ => k))
  (at level 61, right associativity) : py_scope.

(** ** Floats: the binary64 arithmetic the script uses *)

Module Float.

Import SpecFloat.
Import Py.

(** [a / b] rounded to an integer, ties to the even one ([0 < b]). *)
Definition round_half_even (a b : Z) : Z :=
  let q := a / b in
  let r := a mod b in
  if 2 * r <? b then q
  else if b <? 2 * r then q + 1
  else if Z.even q then q else q + 1.

(** The integer part of [log2 (n / d)], for positive [n] and [d]. *)
Definition floor_log2 (n d : Z) : Z :=
  let k := Z.log2 n - Z.log2 d in
  if n * 2 ^ Z.max 0 (- k) <? d * 2 ^ Z.max 0 k then k - 1 else k.

(** The binary64 number nearest to [n / d] (ties to even), as mantissa
    and exponent: 53 bits, exponents from -1074 to 971; [None] when the
    rounded value is beyond the largest float. *)
Definition nearest (n d : Z) : option (Z * Z) :=
  let e := Z.max (floor_log2 n d - 52) (-1074) in
  let m := if 0 <=? e then round_half_even n (d * 2 ^ e)
           else round_half_even (n * 2 ^ (- e)) d in
  let '(m, e) := if m =? 2 ^ 53 then (2 ^ 52, e + 1) else (m, e) in
  if 971 <? e then None else Some (m, e).

Definition make (s : bool) (me : Z * Z) : spec_float :=
  match fst me with
  | Zpos p => S754_finite s p (snd me)
  | _ => S754_zero s
  end.

(** [float(n)] for an int, as [n / 1000.0] converts its left operand. *)
Definition of_int (n : Z) : outcome spec_float :=
  if n =? 0 then Ok (S754_zero false)
  else match nearest (Z.abs n) 1 with
       | Some me => Ok (make (n <? 0) me)
       | None => Raise OverflowError
       end.

(** [x / y] on floats. *)
Definition truediv (x y : spec_float) : outcome spec_float :=
  match x, y with
  | _, S754_zero _ => Raise ZeroDivisionError
  | S754_nan, _ | _, S754_nan => Ok S754_nan
  | S754_infinity _, S754_infinity _ => Ok S754_nan
  | S754_infinity sx, S754_finite sy _ _ => Ok (S754_infinity (xorb sx sy))
  | S754_zero sx, S754_infinity sy
  | S754_zero sx, S754_finite sy _ _
  | S754_finite sx _ _, S754_infinity sy => Ok (S754_zero (xorb sx sy))
  | S754_finite sx mx ex, S754_finite sy my ey =>
      let n := Z.pos mx * 2 ^ Z.max 0 (ex - ey) in
      let d := Z.pos my * 2 ^ Z.max 0 (ey - ex) in
      Ok (match nearest n d with
          | Some me => make (xorb sx sy) me
          | None => S754_infinity (xorb sx sy)
          end)
  end.

(** The literal [1000.0]. *)
Definition thousand : spec_float := S754_finite false 8796093022208000 (-43).

(** [n / 1000.0] for an int [n]. *)
Definition int_div_1000 (n : Z) : outcome spec_float :=
  bind (of_int n) (fun x => truediv x thousand).

(** [x >= n] for a float and an int: the exact values are compared. *)
Definition ge_int (x : spec_float) (n : Z) : bool :=
  match x with
  | S754_nan => false
  | S754_infinity s => negb s
  | S754_zero _ => n <=? 0
  | S754_finite s m e =>
      let v := if s then Z.neg m else Z.pos m in
      if 0 <=? e then n <=? v * 2 ^ e else n * 2 ^ (- e) <=? v
  end.

(** [round(x)]: the nearest int, ties to even. *)
Definition round (x : spec_float) : outcome Z :=
  match x with
  | S754_nan => Raise ValueError
  | S754_infinity _ => Raise OverflowError
  | S754_zero _ => Ok 0
  | S754_finite s m e =>
      let a := if 0 <=? e then Z.pos m * 2 ^ e
               else round_half_even (Z.pos m) (2 ^ (- e)) in
      Ok (if s then - a else a)
  end.

(** [f"{x:.1f}"]: the exact value, correctly rounded to tenths. *)
Definition format_1f (x : spec_float) : string :=
  match x with
  | S754_nan => "nan"
  | S754_infinity s => if s then "-inf" else "inf"
  | S754_zero s => if s then "-0.0" else "0.0"
  | S754_finite s m e =>
      let t := if 0 <=? e then 10 * Z.pos m * 2 ^ e
               else round_half_even (10 * Z.pos m) (2 ^ (- e)) in
      (if s then "-" else "")
        ++ Str.of_Z (t / 10) ++ "." ++ Str.of_Z (t mod 10)
  end.

End Float.

(** ** The script *)

Module Route.

Import Py.
Export Quote.
Local Open Scope py_scope.

Definition nl : string := String (ascii_of_nat 10) "".

(** Places extracted from the memories. *)
Definition PLACES : list string := [
  "Royal Monastery of El Escorial, San Lorenzo de El Escorial, Spain";
  "Royal Palace of Madrid, Madrid, Spain";
  "Almudena Cathedral, Madrid, Spain";
  "San Ginés de Arlés Church, Madrid, Spain";
  "Toledo Cathedral, Toledo, Spain"
].

(** [f"{k}={_encode_param(v)}"]. *)
Definition pair_text (kv : string * string) : string :=
  fst kv ++ "=" ++ _encode_param (snd kv).

(** [[places[1:-1][i] for i in order]]. *)
Definition pick_waypoints (places : list string) (order : json)
  : outcome (list string) :=
  items <- iter order ;;
  traverse (list_getitem_json (slice_1_m1 places)) items.

(** [build_gmaps_share_link(places, optimized)]; [JNull] is [None]. *)
Definition build_gmaps_share_link (places : list string) (optimized : json)
  : outcome string :=
  origin <- first_item places ;;
  destination <- last_item places ;;
  waypoints_list <-
    match optimized with
    | JNull => Ok (slice_1_m1 places)
    | _ => pick_waypoints places optimized
    end ;;
  let params :=
    List.app
      [("api", "1"); ("origin", origin); ("destination", destination);
       ("travelmode", "driving")]
      match waypoints_list with
      | [] => []
      | _ => [("waypoints", Str.join "|" waypoints_list)]
      end in
  let query := Str.join "&" (map pair_text params) in
  Ok ("https://www.google.com/maps/dir/?" ++ query).

(** What [call_directions] returns. *)
Record info : Type := {
  waypoint_order : json;
  legs : json;
  polyline : json
}.

Section WithHost.

Context (rt : runtime) (w : world).

(** [_http_get_json(url)]. *)
Definition _http_get_json (url : string) : io json :=
  (of_sum (urlopen_json w url), [HttpGet url]).

(** [_http_get_binary(url)]. *)
Definition _http_get_binary (url : string) : io (list Byte.byte) :=
  (of_sum (urlopen_bytes w url), [HttpGet url]).

(** The request URL of [call_directions]. *)
Definition directions_url (api_key : string) (places : list string)
  : outcome string :=
  origin <- first_item places ;;
  destination <- last_item places ;;
  let waypoints := slice_1_m1 places in
  let params :=
    List.app
      [("origin", origin); ("destination", destination); ("mode", "driving");
       ("language", "en"); ("key", api_key)]
      match waypoints with
      | [] => []
      | _ => [("waypoints", "optimize:true|" ++ Str.join "|" waypoints)]
      end in
  Ok ("https://maps.googleapis.com/maps/api/directions/json" ++ "?"
      ++ Str.join "&" (map pair_text params)).

(** The part of [call_directions] after the response is parsed. *)
Definition read_directions (places : list string) (data : json)
  : outcome info :=
  status <- get data "status" JNull ;;
  if ne_str status "OK" then
    error_message <- get data "error_message" (JStr "") ;;
    Raise (RuntimeError ("Directions API error: " ++ str rt status ++ " - "
                         ++ str rt error_message))
  else
    routes <- getitem_key data "routes" ;;
    route <- getitem_0 routes ;;
    let n := List.length (slice_1_m1 places) in
    order <- get route "waypoint_order" (JArr (map JInt (range n))) ;;
    legs <- get route "legs" (JArr []) ;;
    overview <- get route "overview_polyline" (JObj []) ;;
    points <- get overview "points" (JStr "") ;;
    Ok {| waypoint_order := order; legs := legs; polyline := points |}.

(** [call_directions(api_key, places)]. *)
Definition call_directions (api_key : string) (places : list string)
  : io info :=
  url <~ lift (directions_url api_key places) ;;
  data <~ _http_get_json url ;;
  lift (read_directions places data).

(** [marker_label(i)]. *)
Definition marker_label (i : Z) : outcome (option string) :=
  if (1 <=? i) && (i <=? 9) then Ok (Some (Str.of_Z i))
  else chr (65 + (i - 10)).

(** The marker parameters, numbered from [idx]. *)
Fixpoint markers (idx : Z) (ordered_places : list string)
  : outcome (list (string * option string)) :=
  match ordered_places with
  | [] => Ok []
  | place :: rest =>
      label <- marker_label idx ;;
      let value :=
        option_map (fun l => "color:blue|label:" ++ l ++ "|" ++ place) label in
      more <- markers (idx + 1) rest ;;
      Ok (("markers", value) :: more)
  end.

(** [urllib.parse.quote(polyline, safe="")]: only text can be quoted. *)
Definition quote_polyline (polyline : json) : outcome string :=
  match polyline with
  | JStr s => Ok (quote "" s)
  | _ => Raise TypeError
  end.

(** [f"{k}={_encode_param(v)}"] for a value that may hold a surrogate. *)
Definition item_text (kv : string * option string) : outcome string :=
  match snd kv with
  | Some v => Ok (pair_text (fst kv, v))
  | None => Raise UnicodeEncodeError
  end.

(** The request URL of [save_static_map]. *)
Definition static_map_url (api_key : string) (polyline : json)
    (ordered_places : list string) : outcome string :=
  marker_params <- markers 1 ordered_places ;;
  quoted <- quote_polyline polyline ;;
  let path_value := "enc:" ++ quoted in
  let query_items :=
    List.app
      [("size", Some "800x600"); ("key", Some api_key);
       ("path", Some path_value)] marker_params in
  texts <- traverse item_text query_items ;;
  Ok ("https://maps.googleapis.com/maps/api/staticmap" ++ "?"
      ++ Str.join "&" texts).

(** [save_static_map(api_key, polyline, ordered_places, out_path)]. *)
Definition save_static_map (api_key : string) (polyline : json)
    (ordered_places : list string) (out_path : string) : io string :=
  url <~ lift (static_map_url api_key polyline ordered_places) ;;
  img <~ _http_get_binary url ;;
  match open_file w out_path with
  | Some e => lift (Raise e)
  | None =>
      match write_file w out_path img with
      | Some e => (Raise e, [FileOpen out_path])
      | None => (Ok out_path, [FileOpen out_path; FileWrite out_path img])
      end
  end.

(** [format_distance_meters(meters)]. *)
Definition format_distance_meters (meters : Z) : outcome string :=
  km <- Float.int_div_1000 meters ;;
  if Float.ge_int km 10 then
    r <- Float.round km ;;
    Ok (Str.of_Z r ++ " km")
  else Ok (Float.format_1f km ++ " km").

(** [format_duration_seconds(seconds)]. *)
Definition format_duration_seconds (seconds : Z) : string :=
  let hours := seconds / 3600 in
  let minutes := (seconds mod 3600) / 60 in
  let parts := if hours =? 0 then [] else [Str.of_Z hours ++ "h"] in
  let parts :=
    if negb (minutes =? 0) || match parts with [] => true | _ => false end
    then List.app parts [Str.of_Z minutes ++ "m"] else parts in
  Str.join " " parts.

(** The totals loop of [main]. *)
Fixpoint totals (legs : list json) (total_meters total_seconds : Z)
  : outcome (Z * Z) :=
  match legs with
  | [] => Ok (total_meters, total_seconds)
  | leg :: rest =>
      dist <- get leg "distance" (JObj []) ;;
      dist <- get dist "value" (JInt 0) ;;
      dur <- get leg "duration" (JObj []) ;;
      dur <- get dur "value" (JInt 0) ;;
      d <- int rt (or_else dist (JInt 0)) ;;
      t <- int rt (or_else dur (JInt 0)) ;;
      totals rest (total_meters + d) (total_seconds + t)
  end.

(** [for i, p in enumerate(places, start=i): print(f"  {i}. {p}")]. *)
Fixpoint print_numbered (i : Z) (places : list string) : io unit :=
  match places with
  | [] => ret tt
  | p :: rest =>
      print ("  " ++ Str.of_Z i ++ ". " ++ p) ;;; print_numbered (i + 1) rest
  end.

(** [[PLACES[0]] + optimized_waypoints + [PLACES[-1]]]. *)
Definition ordered_places_of (places : list string) (order : json)
  : outcome (list string) :=
  optimized_waypoints <- pick_waypoints places order ;;
  first <- first_item places ;;
  last <- last_item places ;;
  Ok (List.app [first] (List.app optimized_waypoints [last])).

(** The branch of [main] taken without an API key. *)
Definition main_without_key : io unit :=
  print "No GOOGLE_MAPS_API_KEY found. Skipping Directions API call." ;;;
  share_link <~ lift (build_gmaps_share_link PLACES JNull) ;;
  print "Open this link for directions (original order):" ;;;
  print share_link ;;;
  print (nl ++ "To compute optimized route and download a static map image, set GOOGLE_MAPS_API_KEY and re-run.") ;;;
  sys_exit 0.

(** The lines of [main] from the Directions call to the printed share
    link; the polyline and the ordered places go on to the map image. *)
Definition report (api_key : string) : io (json * list string) :=
  info <~ call_directions api_key PLACES ;;
  let waypoint_order := waypoint_order info in
  let legs := legs info in
  let polyline := polyline info in
  ordered_places <~ lift (ordered_places_of PLACES waypoint_order) ;;
  leg_list <~ lift (iter legs) ;;
  tot <~ lift (totals leg_list 0 0) ;;
  print "Optimized Itinerary:" ;;;
  print_numbered 1 ordered_places ;;;
  distance <~ lift (format_distance_meters (fst tot)) ;;
  print (nl ++ "Total Distance: " ++ distance) ;;;
  print ("Total Duration: " ++ format_duration_seconds (snd tot)) ;;;
  share_link <~ lift (build_gmaps_share_link PLACES waypoint_order) ;;
  print (nl ++ "Open this link for directions (optimized order):") ;;;
  print share_link ;;;
  ret (polyline, ordered_places).

(** The [try] block at the end of [main]. *)
Definition save_step (api_key : string) (polyline : json)
    (ordered_places : list string) : io unit :=
  out_img <~ save_static_map api_key polyline ordered_places
               "spain_route.png" ;;
  print (nl ++ "Static route map saved to: " ++ out_img).

(** Its [except Exception as e] handler. *)
Definition save_failed (e : exn) : io unit :=
  print (nl ++ "Failed to save static map image: " ++ str_of_exn rt e).

(** The branch of [main] taken with an API key. *)
Definition main_with_key (api_key : string) : io unit :=
  r <~ report api_key ;;
  try_except (save_step api_key (fst r) (snd r)) save_failed.

(** The first lines of [main]. *)
Definition header : io unit :=
  print "Spain Trip Planned Stops (from memories):" ;;;
  print_numbered 1 PLACES ;;;
  print "".

(** [main()]. *)
Definition main : io unit :=
  header ;;;
  match environ_api_key w with
  | None => main_without_key
  | Some api_key =>
      if String.eqb api_key "" then main_without_key
      else main_with_key api_key
  end.

End WithHost.

End Route.

(** ** Reading a URL back: base and query parameters *)

Module Url.

Import Quote.

(** The text before and after the first [sep]. *)
Fixpoint cut (sep : ascii) (s : string) : option (string * string) :=
  match s with
  | EmptyString => None
  | String c s' =>
      if Ascii.eqb c sep then Some ("", s')
      else match cut sep s' with
           | Some (a, b) => Some (String c a, b)
           | None => None
           end
  end.

(** The pieces between the occurrences of [sep]. *)
Fixpoint split (sep : ascii) (s : string) : list string :=
  match s with
  | EmptyString => [""]
  | String c s' =>
      if Ascii.eqb c sep then "" :: split sep s'
      else match split sep s' with
           | h :: t => String c h :: t
           | [] => [String c ""]
           end
  end.

(** One [key=value] piece, the value percent-decoded. *)
Definition param (piece : string) : string * string :=
  match cut "=" piece with
  | Some (k, v) => (k, percent_decode v)
  | None => (piece, "")
  end.

(** What stands before the [?]. *)
Definition base (url : string) : string :=
  match cut "?" url with
  | Some (b, _) => b
  | None => url
  end.

(** The parameters after the [?], in order. *)
Definition params (url : string) : list (string * string) :=
  match cut "?" url with
  | Some (_, q) => map param (split "&" q)
  | None => []
  end.

(** The value of the first parameter called [key]. *)
Fixpoint value (key : string) (ps : list (string * string)) : option string :=
  match ps with
  | [] => None
  | (k, v) :: rest => if String.eqb key k then Some v else value key rest
  end.

(** A character that is none of [?], [&], [=]. *)
Definition plain (c : ascii) : bool :=
  negb (Ascii.eqb c "?") && negb (Ascii.eqb c "&") && negb (Ascii.eqb c "=").

End Url.

(** ** Sample hosts, for the concrete runs below *)

Module Sample.

Import Py.

Definition runtime0 : runtime := {|
  repr := fun _ => "<value>";
  int_of_str := fun _ => Raise ValueError;
  str_of_exn := fun e =>
    match e with
    | RuntimeError m => m
    | HostError m => m
    | _ => "error"
    end
|}.

Definition leg (meters seconds : Z) : json :=
  JObj [("distance", JObj [("text", JStr "-"); ("value", JInt meters)]);
        ("duration", JObj [("text", JStr "-"); ("value", JInt seconds)])].

(** A Directions answer that visits the third waypoint first. *)
Definition answer : json :=
  JObj [("status", JStr "OK");
        ("routes",
         JArr [JObj [("waypoint_order", JArr [JInt 2; JInt 0; JInt 1]);
                     ("legs",
                      JArr [leg 48000 3000; leg 1200 300; leg 900 240;
                            leg 73000 3600]);
                     ("overview_polyline",
                      JObj [("points", JStr "a~l~Fjk~uOwHJy@P")])]])].

(** The same answer without the [waypoint_order] field. *)
Definition answer_no_order : json :=
  JObj [("status", JStr "OK");
        ("routes",
         JArr [JObj [("legs", JArr [leg 48000 3000]);
                     ("overview_polyline", JObj [("points", JStr "a~l~F")])]])].

(** A refusal. *)
Definition denied : json :=
  JObj [("status", JStr "REQUEST_DENIED"); ("error_message", JStr "bad key")].

(** Status [OK], but no route in the answer. *)
Definition no_route : json := JObj [("status", JStr "OK"); ("routes", JArr [])].

Definition world_of (key : option string) (directions : json)
    (image : exn + list Byte.byte) : world := {|
  environ_api_key := key;
  urlopen_json := fun _ => inr directions;
  urlopen_bytes := fun _ => image;
  open_file := fun _ => None;
  write_file := fun _ _ => None
|}.

(** All goes well. *)
Definition world_ok : world := world_of (Some "KEY") answer (inr []).

(** The image request is refused. *)
Definition world_no_image : world :=
  world_of (Some "KEY") answer (inl (HostError "HTTP Error 403: Forbidden")).

Definition world_denied : world := world_of (Some "KEY") denied (inr []).

Definition world_no_route : world := world_of (Some "KEY") no_route (inr []).

Definition world_no_order : world :=
  world_of (Some "KEY") answer_no_order (inr []).

Definition world_no_key : world := world_of None answer (inr []).

End Sample.

(** * Properties *)

(** ** Strings *)

Module StrFacts.

Lemma append_assoc (a b c : string) : (a ++ b) ++ c = a ++ (b ++ c).
Proof. induction a as [|x a IH]; simpl; [reflexivity | now rewrite IH]. Qed.

Lemma all_app p a b : Str.all p (a ++ b) = Str.all p a && Str.all p b.
Proof.
  induction a as [|x a IH]; simpl; [reflexivity|].
  now rewrite IH, andb_assoc.
Qed.

End StrFacts.

(** ** Percent-encoding *)

Module QuoteFacts.

Import Quote.

(** All 256 bytes, for facts settled by enumeration. *)
Definition all_bytes : list ascii :=
  map (fun n => ascii_of_nat n) (seq 0 256).

Lemma in_all_bytes (c : ascii) : In c all_bytes.
Proof.
  unfold all_bytes. apply in_map_iff. exists (nat_of_ascii c). split.
  - apply ascii_nat_embedding.
  - apply in_seq. pose proof (nat_ascii_bounded c). simpl. Lia.lia.
Qed.

Lemma forall_bytes (p : ascii -> bool) :
  forallb p all_bytes = true -> forall c, p c = true.
Proof.
  intros H c. rewrite forallb_forall in H. apply H, in_all_bytes.
Qed.

Lemma always_safe_unreserved c : Str.mem c ALWAYS_SAFE = unreserved c.
Proof.
  apply Bool.eqb_prop.
  revert c. apply forall_bytes. vm_compute. reflexivity.
Qed.

Lemma kept_spec c :
  Str.mem c ALWAYS_SAFE || Str.mem c default_safe = kept c.
Proof. unfold kept. now rewrite always_safe_unreserved. Qed.

Lemma kept_not_percent c : kept c = true -> Ascii.eqb c "%" = false.
Proof.
  intros H.
  assert (G : implb (kept c) (negb (Ascii.eqb c "%")) = true)
    by (revert c H; intros c _; revert c; apply forall_bytes;
        vm_compute; reflexivity).
  rewrite H in G. simpl in G. now apply negb_true_iff in G.
Qed.

Lemma hex_roundtrip c :
  hex_val (hex_digit (N.div (N_of_ascii c) 16)) = Some (N.div (N_of_ascii c) 16)
  /\ hex_val (hex_digit (N.modulo (N_of_ascii c) 16))
     = Some (N.modulo (N_of_ascii c) 16)
  /\ is_upper_hex (hex_digit (N.div (N_of_ascii c) 16)) = true
  /\ is_upper_hex (hex_digit (N.modulo (N_of_ascii c) 16)) = true.
Proof.
  set (ok := fun c =>
    match hex_val (hex_digit (N.div (N_of_ascii c) 16)),
          hex_val (hex_digit (N.modulo (N_of_ascii c) 16)) with
    | Some h, Some l =>
        N.eqb h (N.div (N_of_ascii c) 16) && N.eqb l (N.modulo (N_of_ascii c) 16)
        && is_upper_hex (hex_digit (N.div (N_of_ascii c) 16))
        && is_upper_hex (hex_digit (N.modulo (N_of_ascii c) 16))
    | _, _ => false
    end).
  assert (H : ok c = true)
    by (revert c; apply forall_bytes; vm_compute; reflexivity).
  unfold ok in H.
  destruct (hex_val (hex_digit (N.div (N_of_ascii c) 16))) as [h|]; [|discriminate].
  destruct (hex_val (hex_digit (N.modulo (N_of_ascii c) 16))) as [l|]; [|discriminate].
  repeat (apply andb_true_iff in H; destruct H as [H ?]).
  apply N.eqb_eq in H. subst h.
  match goal with E : N.eqb l _ = true |- _ => apply N.eqb_eq in E; subst l end.
  auto.
Qed.

Lemma byte_of_hex c :
  ascii_of_N (16 * N.div (N_of_ascii c) 16 + N.modulo (N_of_ascii c) 16) = c.
Proof.
  rewrite <- N.div_mod by discriminate. apply ascii_N_embedding.
Qed.

Lemma quote_default_cons c v :
  _encode_param (String c v)
  = (if kept c then String c "" else pct c) ++ _encode_param v.
Proof.
  unfold _encode_param. simpl. unfold quote_byte. now rewrite kept_spec.
Qed.

Lemma percent_decode_encode v : percent_decode (_encode_param v) = v.
Proof.
  induction v as [|c v IH]; [reflexivity|].
  rewrite quote_default_cons. destruct (kept c) eqn:K.
  - simpl. rewrite (kept_not_percent c K). now rewrite IH.
  - unfold pct. cbn [append percent_decode].
    destruct (hex_roundtrip c) as (Hh & Hl & _).
    change (Ascii.eqb "%" "%") with true. cbv iota.
    rewrite Hh, Hl, byte_of_hex. now rewrite IH.
Qed.

Lemma charwise_encode v : charwise v (_encode_param v).
Proof.
  induction v as [|c v IH]; [constructor|].
  rewrite quote_default_cons. destruct (kept c) eqn:K.
  - simpl. now constructor.
  - destruct (hex_roundtrip c) as (Hh & Hl & Uh & Ul).
    unfold pct. cbn [append]. now constructor.
Qed.

Lemma encode_param_app a b :
  _encode_param (a ++ b) = _encode_param a ++ _encode_param b.
Proof.
  unfold _encode_param. induction a as [|c a IH]; simpl; [reflexivity|].
  now rewrite IH, StrFacts.append_assoc.
Qed.

(** The separators the Google APIs expect are kept as they are. *)
Lemma separators_kept :
  _encode_param "|" = "|" /\ _encode_param "," = "," /\ _encode_param ":" = ":".
Proof. repeat split. Qed.

(** No byte is encoded to text that holds [?], [&] or [=]. *)
Lemma quote_byte_plain c : Str.all Url.plain (quote_byte default_safe c) = true.
Proof.
  revert c. apply forall_bytes. vm_compute. reflexivity.
Qed.

Lemma encode_param_plain v : Str.all Url.plain (_encode_param v) = true.
Proof.
  unfold _encode_param. induction v as [|c v IH]; [reflexivity|].
  simpl. now rewrite StrFacts.all_app, quote_byte_plain, IH.
Qed.

(** C5. URL-encoding round trip: percent-decoding [_encode_param v] gives
    [v] back for every string [v]; the result is [v] character by character,
    with every character outside the unreserved set and outside ["-._~|,:"]
    written as ["%"] and its two upper-case hexadecimal digits and every
    other character copied; [|], [,] and [:] pass through unescaped. *)
Theorem encode_param_round_trip (v : string) :
  percent_decode (_encode_param v) = v
  /\ charwise v (_encode_param v)
  /\ (forall c, kept c = unreserved c || Str.mem c "-._~|,:")
  /\ _encode_param "|" = "|" /\ _encode_param "," = "," /\ _encode_param ":" = ":".
Proof.
  split; [apply percent_decode_encode|].
  split; [apply charwise_encode|].
  split; [reflexivity|]. exact separators_kept.
Qed.

End QuoteFacts.

(** ** URLs read back *)

Module UrlFacts.

Import Quote Url QuoteFacts.

Definition differs (sep : ascii) (c : ascii) : bool := negb (Ascii.eqb c sep).

Lemma cut_app sep a b :
  Str.all (differs sep) a = true ->
  cut sep (a ++ String sep b) = Some (a, b).
Proof.
  induction a as [|c a IH]; simpl; intros H.
  - now rewrite Ascii.eqb_refl.
  - apply andb_true_iff in H. destruct H as [Hc Ha].
    unfold differs in Hc. apply negb_true_iff in Hc. rewrite Hc.
    now rewrite (IH Ha).
Qed.

Lemma split_clean sep a :
  Str.all (differs sep) a = true -> split sep a = [a].
Proof.
  induction a as [|c a IH]; simpl; intros H; [reflexivity|].
  apply andb_true_iff in H. destruct H as [Hc Ha].
  unfold differs in Hc. apply negb_true_iff in Hc. rewrite Hc.
  now rewrite (IH Ha).
Qed.

Lemma split_app sep a b :
  Str.all (differs sep) a = true ->
  split sep (a ++ String sep b) = a :: split sep b.
Proof.
  induction a as [|c a IH]; simpl; intros H.
  - now rewrite Ascii.eqb_refl.
  - apply andb_true_iff in H. destruct H as [Hc Ha].
    unfold differs in Hc. apply negb_true_iff in Hc. rewrite Hc.
    now rewrite (IH Ha).
Qed.

Lemma split_join sep (pieces : list string) :
  pieces <> [] ->
  Forall (fun p => Str.all (differs sep) p = true) pieces ->
  split sep (Str.join (String sep "") pieces) = pieces.
Proof.
  induction pieces as [|p rest IH]; intros Hne Hall; [congruence|].
  inversion Hall as [|? ? Hp Hrest]; subst.
  destruct rest as [|q rest].
  - simpl. now apply split_clean.
  - change (Str.join (String sep "") (p :: q :: rest))
      with (p ++ String sep (Str.join (String sep "") (q :: rest))).
    rewrite (split_app _ _ _ Hp). f_equal. apply IH; [discriminate|assumption].
Qed.

Lemma plain_differs sep a :
  Url.plain sep = false ->
  Str.all Url.plain a = true -> Str.all (differs sep) a = true.
Proof.
  intros Hs. induction a as [|c a IH]; simpl; intros H; [reflexivity|].
  apply andb_true_iff in H. destruct H as [Hc Ha].
  rewrite (IH Ha), andb_true_r. unfold differs.
  destruct (Ascii.eqb c sep) eqn:E; [|reflexivity].
  apply Ascii.eqb_eq in E. subst c. congruence.
Qed.

(** A key of the script: none of [?], [&], [=] in it. *)
Definition plain_key (kv : string * string) : bool := Str.all Url.plain (fst kv).

Lemma pair_text_plain_amp kv :
  plain_key kv = true -> Str.all (differs "&") (Route.pair_text kv) = true.
Proof.
  intros Hk. unfold Route.pair_text.
  rewrite !StrFacts.all_app.
  rewrite (plain_differs "&" (fst kv)) by (reflexivity || assumption).
  rewrite (plain_differs "&" (_encode_param (snd kv)))
    by (reflexivity || apply encode_param_plain).
  reflexivity.
Qed.

Lemma param_pair_text kv :
  plain_key kv = true -> param (Route.pair_text kv) = kv.
Proof.
  intros Hk. unfold param, Route.pair_text.
  change (fst kv ++ "=" ++ _encode_param (snd kv))
    with (fst kv ++ String "=" (_encode_param (snd kv))).
  rewrite cut_app by (apply plain_differs; [reflexivity|assumption]).
  rewrite percent_decode_encode. now destruct kv.
Qed.

(** The parameters the script writes after a [?] are the ones read back. *)
Lemma params_of_query (b : string) (ps : list (string * string)) :
  Str.all (differs "?") b = true ->
  ps <> [] ->
  forallb plain_key ps = true ->
  base (b ++ "?" ++ Str.join "&" (map Route.pair_text ps)) = b
  /\ params (b ++ "?" ++ Str.join "&" (map Route.pair_text ps)) = ps.
Proof.
  intros Hb Hne Hk. unfold base, params.
  change (b ++ "?" ++ Str.join "&" (map Route.pair_text ps))
    with (b ++ String "?" (Str.join "&" (map Route.pair_text ps))).
  rewrite cut_app by assumption. split; [reflexivity|].
  rewrite split_join.
  - rewrite map_map. rewrite forallb_forall in Hk.
    clear Hne. induction ps as [|kv ps IH]; [reflexivity|].
    simpl. rewrite param_pair_text by (apply Hk; now left).
    f_equal. apply IH. intros x Hx. apply Hk. now right.
  - destruct ps; [congruence|discriminate].
  - rewrite forallb_forall in Hk. apply Forall_forall.
    intros x Hx. apply in_map_iff in Hx. destruct Hx as (kv & <- & Hin).
    apply pair_text_plain_amp. now apply Hk.
Qed.

End UrlFacts.

(** ** Lists the way Python indexes them *)

Module PyFacts.

Import Py.

Lemma list_getitem_nth {A} (l : list A) (i : Z) (d : A) :
  0 <= i < Z.of_nat (List.length l) ->
  list_getitem l i = Ok (nth (Z.to_nat i) l d).
Proof.
  intros H. unfold list_getitem.
  replace (i <? 0) with false by (symmetry; apply Z.ltb_ge; lia).
  replace (0 <=? i) with true by (symmetry; apply Z.leb_le; lia).
  replace (i <? Z.of_nat (List.length l)) with true
    by (symmetry; apply Z.ltb_lt; lia).
  simpl. rewrite (nth_error_nth' l d) by lia. reflexivity.
Qed.

Lemma first_item_cons {A} (x : A) (l : list A) : first_item (x :: l) = Ok x.
Proof.
  unfold first_item. rewrite (list_getitem_nth _ 0 x); [reflexivity|].
  simpl List.length. lia.
Qed.

Lemma last_item_snoc {A} (l : list A) (x : A) : last_item (l ++ [x]) = Ok x.
Proof.
  unfold last_item, list_getitem.
  rewrite length_app. simpl List.length.
  change (-1 <? 0) with true. cbv iota.
  replace (-1 + Z.of_nat (List.length l + 1)) with (Z.of_nat (List.length l)) by lia.
  replace (0 <=? Z.of_nat (List.length l)) with true
    by (symmetry; apply Z.leb_le; lia).
  replace (Z.of_nat (List.length l) <? Z.of_nat (List.length l + 1)) with true
    by (symmetry; apply Z.ltb_lt; lia).
  simpl. rewrite Nat2Z.id.
  rewrite nth_error_app2 by lia. now rewrite Nat.sub_diag.
Qed.

Lemma last_item_ends {A} (a : A) (mid : list A) (z : A) :
  last_item (a :: mid ++ [z]) = Ok z.
Proof. apply (last_item_snoc (a :: mid) z). Qed.

Lemma slice_ends {A} (a : A) (mid : list A) (z : A) :
  slice_1_m1 (a :: mid ++ [z]) = mid.
Proof. unfold slice_1_m1. simpl. apply removelast_last. Qed.

(** The places an order of indices selects. *)
Definition select (mid : list string) (order : list Z) : list string :=
  map (fun i => nth (Z.to_nat i) mid "") order.

(** Every index is one of the list. *)
Definition in_range (n : nat) (order : list Z) : Prop :=
  Forall (fun i => 0 <= i < Z.of_nat n) order.

Lemma traverse_getitem (mid : list string) (order : list Z) :
  in_range (List.length mid) order ->
  traverse (list_getitem_json mid) (map JInt order) = Ok (select mid order).
Proof.
  induction 1 as [|i order Hi _ IH]; [reflexivity|].
  simpl. rewrite (list_getitem_nth mid i "") by assumption.
  simpl. rewrite IH. reflexivity.
Qed.

Lemma select_range (mid : list string) :
  select mid (range (List.length mid)) = mid.
Proof.
  unfold select, range. rewrite map_map.
  apply (nth_ext _ _ (nth (Z.to_nat (Z.of_nat 0)) mid "") "").
  - now rewrite length_map, length_seq.
  - intros n Hn. rewrite length_map, length_seq in Hn.
    rewrite (map_nth (fun x => nth (Z.to_nat (Z.of_nat x)) mid "")).
    rewrite seq_nth by assumption. now rewrite Nat2Z.id.
Qed.

Lemma in_range_range (n : nat) : in_range n (range n).
Proof.
  unfold in_range, range. apply Forall_forall. intros i Hi.
  apply in_map_iff in Hi. destruct Hi as (k & <- & Hk).
  apply in_seq in Hk. lia.
Qed.

End PyFacts.

(** ** The share link *)

Module ShareLink.

Import Py Route Url PyFacts UrlFacts.

(** The [optimized] argument: [None], or a list of indices. *)
Definition order_arg (order : option (list Z)) : json :=
  match order with
  | None => JNull
  | Some l => JArr (map JInt l)
  end.

(** The middle places in the order asked for. *)
Definition chosen (mid : list string) (order : option (list Z)) : list string :=
  match order with
  | None => mid
  | Some l => select mid l
  end.

Definition valid_order (mid : list string) (order : option (list Z)) : Prop :=
  match order with
  | None => True
  | Some l => in_range (List.length mid) l
  end.

(** The [waypoints] parameter: written only when there is a waypoint. *)
Definition waypoints_param (ws : list string) : list (string * string) :=
  match ws with
  | [] => []
  | _ => [("waypoints", Str.join "|" ws)]
  end.

Definition link_params (first last : string) (ws : list string)
  : list (string * string) :=
  List.app
    [("api", "1"); ("origin", first); ("destination", last);
     ("travelmode", "driving")]
    (waypoints_param ws).

Lemma pick_waypoints_ends first mid last (l : list Z) :
  in_range (List.length mid) l ->
  pick_waypoints (first :: mid ++ [last]) (JArr (map JInt l))
  = Ok (select mid l).
Proof.
  intros H. unfold pick_waypoints. simpl iter. cbn [bind].
  rewrite slice_ends. now apply traverse_getitem.
Qed.

Lemma share_link_text first mid last order :
  valid_order mid order ->
  build_gmaps_share_link (first :: mid ++ [last]) (order_arg order)
  = Ok ("https://www.google.com/maps/dir/" ++ "?"
        ++ Str.join "&" (map pair_text (link_params first last (chosen mid order)))).
Proof.
  intros Hv. unfold build_gmaps_share_link.
  rewrite first_item_cons, last_item_ends. cbn [bind].
  assert (W : match order_arg order with
              | JNull => Ok (slice_1_m1 (first :: mid ++ [last]))
              | _ => pick_waypoints (first :: mid ++ [last]) (order_arg order)
              end = Ok (chosen mid order)).
  { destruct order as [l|]; simpl.
    - now apply pick_waypoints_ends.
    - now rewrite slice_ends. }
  rewrite W. cbn [bind]. unfold link_params, waypoints_param.
  destruct (chosen mid order); reflexivity.
Qed.

Lemma link_params_plain first last ws :
  forallb plain_key (link_params first last ws) = true.
Proof. destruct ws; reflexivity. Qed.

(** The specification read to the letter: all four parameters are in
    the link. *)
Definition all_four (first last : string) (ws : list string) (url : string)
  : Prop :=
  value "origin" (params url) = Some first
  /\ value "destination" (params url) = Some last
  /\ value "waypoints" (params url) = Some (Str.join "|" ws)
  /\ value "travelmode" (params url) = Some "driving".

(** The link read back: its base and its parameters. *)
Lemma share_link_read first mid last order :
  valid_order mid order ->
  exists url,
    build_gmaps_share_link (first :: mid ++ [last]) (order_arg order) = Ok url
    /\ base url = "https://www.google.com/maps/dir/"
    /\ params url = link_params first last (chosen mid order).
Proof.
  intros Hv. eexists. split; [apply share_link_text; assumption|].
  apply params_of_query.
  - reflexivity.
  - unfold link_params. discriminate.
  - apply link_params_plain.
Qed.

Lemma link_params_values first last ws :
  value "origin" (link_params first last ws) = Some first
  /\ value "destination" (link_params first last ws) = Some last
  /\ value "travelmode" (link_params first last ws) = Some "driving"
  /\ value "waypoints" (link_params first last ws)
     = match ws with
       | [] => None
       | _ => Some (Str.join "|" ws)
       end.
Proof. destruct ws; repeat split; reflexivity. Qed.

(** C3, as amended.  For places [first :: mid ++ [last]] and an order
    that is absent or a list of indices into [mid], the link is a Google
    Maps directions URL whose parameters are [api=1], the first place as
    [origin], the last place as [destination], [travelmode=driving] and,
    only when at least one waypoint is selected, [waypoints]: the middle
    places joined by ["|"], in the given order, or in the original order
    when none is given. *)
Theorem share_link_parameters first mid last order :
  valid_order mid order ->
  exists url,
    build_gmaps_share_link (first :: mid ++ [last]) (order_arg order) = Ok url
    /\ base url = "https://www.google.com/maps/dir/"
    /\ params url = link_params first last (chosen mid order)
    /\ value "origin" (params url) = Some first
    /\ value "destination" (params url) = Some last
    /\ value "travelmode" (params url) = Some "driving"
    /\ value "waypoints" (params url)
       = match chosen mid order with
         | [] => None
         | ws => Some (Str.join "|" ws)
         end.
Proof.
  intros Hv. destruct (share_link_read first mid last order Hv)
    as (url & Hu & Hb & Hp).
  exists url. rewrite Hp.
  destruct (link_params_values first last (chosen mid order))
    as (H1 & H2 & H3 & H4).
  repeat (split; [assumption || reflexivity|]).
  rewrite H4. destruct (chosen mid order); reflexivity.
Qed.

(** The amended claim at the five places of the script, visited as
    the third, first and second waypoint. *)
Lemma share_link_parameters_witness :
  valid_order (slice_1_m1 PLACES) (Some [2; 0; 1])
  /\ exists url,
       build_gmaps_share_link PLACES (JArr [JInt 2; JInt 0; JInt 1]) = Ok url
       /\ value "waypoints" (params url)
          = Some "San Ginés de Arlés Church, Madrid, Spain|Royal Palace of Madrid, Madrid, Spain|Almudena Cathedral, Madrid, Spain".
Proof.
  assert (V : valid_order (slice_1_m1 PLACES) (Some [2; 0; 1]))
    by (repeat constructor; simpl; lia).
  split; [exact V|].
  destruct (share_link_parameters
              "Royal Monastery of El Escorial, San Lorenzo de El Escorial, Spain"
              (slice_1_m1 PLACES)
              "Toledo Cathedral, Toledo, Spain" (Some [2; 0; 1]) V)
    as (url & Hu & _ & _ & _ & _ & _ & Hw).
  exists url. split; [exact Hu | exact Hw].
Defined.

(** With exactly two places the link has no [waypoints] parameter at
    all, so the specification read to the letter fails there. *)
Lemma share_link_two_places :
  build_gmaps_share_link ["A"; "B"] JNull
  = Ok "https://www.google.com/maps/dir/?api=1&origin=A&destination=B&travelmode=driving"
  /\ ~ all_four "A" "B" []
       "https://www.google.com/maps/dir/?api=1&origin=A&destination=B&travelmode=driving".
Proof.
  split; [reflexivity|].
  intros (_ & _ & H & _). vm_compute in H. discriminate.
Qed.

End ShareLink.

(** ** Durations *)

Module Duration.

Import Route.

(** C6. For a nonnegative number of seconds, with [H = seconds div 3600]
    and [M = (seconds mod 3600) div 60]: the text is ["Mm"] alone when [H]
    is zero, ["Hh"] alone when [H] is nonzero and [M] is zero, and
    ["Hh Mm"], joined by one space, when both are nonzero; [H] and [M] are
    the whole hours and the remaining whole minutes of [seconds]; 0 formats
    as ["0m"] and 3600 as ["1h"]. *)
Theorem format_duration_seconds_parts (seconds : Z) :
  0 <= seconds ->
  let H := seconds / 3600 in
  let M := (seconds mod 3600) / 60 in
  (H = 0 -> format_duration_seconds seconds = Str.of_Z M ++ "m")
  /\ (H <> 0 -> M = 0 -> format_duration_seconds seconds = Str.of_Z H ++ "h")
  /\ (H <> 0 -> M <> 0 ->
      format_duration_seconds seconds
      = Str.of_Z H ++ "h" ++ " " ++ Str.of_Z M ++ "m")
  /\ (0 <= H /\ 0 <= M < 60
      /\ 3600 * H + 60 * M <= seconds < 3600 * H + 60 * M + 60)
  /\ format_duration_seconds 0 = "0m"
  /\ format_duration_seconds 3600 = "1h".
Proof.
  intros Hs H M. unfold format_duration_seconds. fold H. fold M.
  split; [|split; [|split; [|split]]].
  - intros E. rewrite E. simpl. destruct (M =? 0); reflexivity.
  - intros NE E. apply Z.eqb_neq in NE. rewrite NE, E. simpl.
    unfold Str.join. simpl. reflexivity.
  - intros NE NM. apply Z.eqb_neq in NE, NM. rewrite NE, NM. simpl.
    unfold Str.join. simpl.
    now rewrite StrFacts.append_assoc.
  - subst H M.
    pose proof (Z.div_mod seconds 3600 ltac:(lia)) as D1.
    pose proof (Z.mod_pos_bound seconds 3600 ltac:(lia)) as B1.
    pose proof (Z.div_mod (seconds mod 3600) 60 ltac:(lia)) as D2.
    pose proof (Z.mod_pos_bound (seconds mod 3600) 60 ltac:(lia)) as B2.
    assert (0 <= seconds / 3600) by (apply Z.div_pos; lia).
    assert (0 <= (seconds mod 3600) / 60 < 60)
      by (split; [apply Z.div_pos; lia | apply Z.div_lt_upper_bound; lia]).
    lia.
  - split; reflexivity.
Qed.

(** One hour, one minute and five seconds. *)
Lemma format_duration_seconds_parts_witness :
  0 <= 3665 /\ format_duration_seconds 3665 = "1h 1m".
Proof.
  split; [lia|].
  destruct (format_duration_seconds_parts 3665 ltac:(lia)) as (_ & _ & B & _).
  apply B; discriminate.
Defined.

End Duration.

(** ** Runs: results and logs of the effectful parts *)

Module RunFacts.

Import Py Route PyFacts.
Local Open Scope py_scope.

Lemma io_bind_ok {A B} (m : io A) (k : A -> io B) (a : A) :
  result m = Ok a ->
  io_bind m k = (result (k a), (log m ++ log (k a))%list).
Proof.
  destruct m as [r l]. simpl. intros ->. simpl. now destruct (k a).
Qed.

Lemma io_bind_raise {A B} (m : io A) (k : A -> io B) (e : exn) :
  result m = Raise e -> io_bind m k = (Raise e, log m).
Proof. destruct m as [r l]. simpl. now intros ->. Qed.

Lemma io_bind_exit {A B} (m : io A) (k : A -> io B) (c : Z) :
  result m = Exit c -> io_bind m k = (Exit c, log m).
Proof. destruct m as [r l]. simpl. now intros ->. Qed.

Lemma io_bind_lift_ok {A B} (a : A) (k : A -> io B) :
  io_bind (lift (Ok a)) k = k a.
Proof. unfold lift. simpl. now destruct (k a). Qed.

Lemma io_bind_print {B} (s : string) (k : unit -> io B) :
  io_bind (print s) k = (result (k tt), Print s :: log (k tt)).
Proof. unfold print. simpl. now destruct (k tt). Qed.

Lemma io_eta {A} (m : io A) : m = (result m, log m).
Proof. now destruct m. Qed.

(** The lines [print_numbered] prints. *)
Fixpoint numbered (i : Z) (places : list string) : list string :=
  match places with
  | [] => []
  | p :: rest => ("  " ++ Str.of_Z i ++ ". " ++ p) :: numbered (i + 1) rest
  end.

Lemma print_numbered_run i places :
  print_numbered i places = (Ok tt, map Print (numbered i places)).
Proof.
  revert i. induction places as [|p rest IH]; intros i; [reflexivity|].
  cbn [print_numbered numbered map]. rewrite io_bind_print, IH. reflexivity.
Qed.

Lemma printed_app l l' : printed (l ++ l') = (printed l ++ printed l')%list.
Proof.
  induction l as [|[s|u|p|p d] l IH]; simpl; rewrite ?IH; reflexivity.
Qed.

Lemma requests_app l l' : requests (l ++ l') = (requests l ++ requests l')%list.
Proof.
  induction l as [|[s|u|p|p d] l IH]; simpl; rewrite ?IH; reflexivity.
Qed.

Lemma printed_prints ls : printed (map Print ls) = ls.
Proof. induction ls as [|s ls IH]; simpl; [|rewrite IH]; reflexivity. Qed.

Lemma requests_prints ls : requests (map Print ls) = [].
Proof. induction ls as [|s ls IH]; simpl; [|rewrite IH]; reflexivity. Qed.

(** The lines [header] prints. *)
Definition header_lines : list string :=
  List.app ("Spain Trip Planned Stops (from memories):" :: numbered 1 PLACES)
           [""].

Lemma header_run : header = (Ok tt, map Print header_lines).
Proof. reflexivity. Qed.

Section WithHost.

Context (rt : runtime) (w : world).

Lemma call_directions_run api_key places :
  call_directions rt w api_key places
  = match directions_url api_key places with
    | Ok url =>
        (bind (of_sum (urlopen_json w url)) (read_directions rt places),
         [HttpGet url])
    | Raise e => (Raise e, [])
    | Exit c => (Exit c, [])
    end.
Proof.
  unfold call_directions.
  destruct (directions_url api_key places) as [url|e|c]; try reflexivity.
  rewrite io_bind_lift_ok. unfold _http_get_json.
  destruct (urlopen_json w url) as [e|data]; simpl; [reflexivity|].
  now destruct (read_directions rt places data).
Qed.

Lemma save_static_map_run api_key polyline ordered_places out_path :
  save_static_map w api_key polyline ordered_places out_path
  = match static_map_url api_key polyline ordered_places with
    | Ok url =>
        match urlopen_bytes w url with
        | inl e => (Raise e, [HttpGet url])
        | inr img =>
            match open_file w out_path with
            | Some e => (Raise e, [HttpGet url])
            | None =>
                match write_file w out_path img with
                | Some e => (Raise e, [HttpGet url; FileOpen out_path])
                | None =>
                    (Ok out_path,
                     [HttpGet url; FileOpen out_path; FileWrite out_path img])
                end
            end
        end
    | Raise e => (Raise e, [])
    | Exit c => (Exit c, [])
    end.
Proof.
  unfold save_static_map.
  destruct (static_map_url api_key polyline ordered_places) as [url|e|c];
    try reflexivity.
  rewrite io_bind_lift_ok. unfold _http_get_binary.
  destruct (urlopen_bytes w url) as [e|img]; simpl; [reflexivity|].
  destruct (open_file w out_path); [reflexivity|].
  destruct (write_file w out_path img); reflexivity.
Qed.

(** Each of the two functions that reach the network asks once at most. *)
Lemma call_directions_requests api_key places :
  (List.length (requests (log (call_directions rt w api_key places))) <= 1)%nat.
Proof.
  rewrite call_directions_run.
  destruct (directions_url api_key places); simpl; lia.
Qed.

Lemma save_static_map_requests api_key polyline ordered_places out_path :
  (List.length (requests (log (save_static_map w api_key polyline
                                 ordered_places out_path))) <= 1)%nat.
Proof.
  rewrite save_static_map_run.
  destruct (static_map_url api_key polyline ordered_places); simpl; try lia.
  destruct (urlopen_bytes w a); simpl; try lia.
  destruct (open_file w out_path); simpl; try lia.
  destruct (write_file w out_path l); simpl; lia.
Qed.

(** The [try] block with its handler: a failed save is reported and
    the run goes on. *)
Lemma save_step_run api_key polyline ordered_places :
  let s := save_static_map w api_key polyline ordered_places
             "spain_route.png" in
  try_except (save_step w api_key polyline ordered_places) (save_failed rt)
  = match result s with
    | Ok path =>
        (Ok tt,
         (log s ++ [Print (nl ++ "Static route map saved to: " ++ path)])%list)
    | Raise e =>
        (Ok tt,
         (log s ++ [Print (nl ++ "Failed to save static map image: "
                           ++ str_of_exn rt e)])%list)
    | Exit c => (Exit c, log s)
    end.
Proof.
  intros s. unfold save_step. fold s. destruct s as [[path|e|c] l]; reflexivity.
Qed.

End WithHost.

End RunFacts.

(** ** The run of [main] *)

Module MainFacts.

Import Py Route PyFacts RunFacts.
Local Open Scope py_scope.

(** The lines printed without an API key, after the header. *)
Definition no_key_lines (link : string) : list string :=
  [ "No GOOGLE_MAPS_API_KEY found. Skipping Directions API call.";
    "Open this link for directions (original order):";
    link;
    nl ++ "To compute optimized route and download a static map image, set GOOGLE_MAPS_API_KEY and re-run." ].

(** The lines printed between the Directions call and the map image. *)
Definition report_lines (ordered_places : list string)
    (distance : string) (total_seconds : Z) (link : string) : list string :=
  List.app ("Optimized Itinerary:" :: numbered 1 ordered_places)
    [ nl ++ "Total Distance: " ++ distance;
      "Total Duration: " ++ format_duration_seconds total_seconds;
      nl ++ "Open this link for directions (optimized order):";
      link ].

(** The Directions request of this run is answered with [data]. *)
Definition answered (w : world) (api_key : string) (places : list string)
    (data : json) : Prop :=
  exists url,
    directions_url api_key places = Ok url /\ urlopen_json w url = inr data.

(** An API key that [main] takes as set. *)
Definition key_set (w : world) (api_key : string) : Prop :=
  environ_api_key w = Some api_key /\ api_key <> "".

Lemma main_without_key_run :
  exists link,
    build_gmaps_share_link PLACES JNull = Ok link
    /\ main_without_key = (Exit 0, map Print (no_key_lines link)).
Proof. eexists. split; reflexivity. Qed.

Section WithHost.

Context (rt : runtime) (w : world).

(** What [main] does after the header. *)
Definition body : io unit :=
  match environ_api_key w with
  | None => main_without_key
  | Some api_key =>
      if String.eqb api_key "" then main_without_key
      else main_with_key rt w api_key
  end.

Lemma main_run :
  main rt w = (result body, (map Print header_lines ++ log body)%list).
Proof.
  unfold main. rewrite (io_bind_ok header _ tt) by reflexivity.
  reflexivity.
Qed.

Lemma main_result : result (main rt w) = result body.
Proof. now rewrite main_run. Qed.

Lemma main_log : log (main rt w) = (map Print header_lines ++ log body)%list.
Proof. now rewrite main_run. Qed.

Lemma main_printed :
  printed (log (main rt w)) = (header_lines ++ printed (log body))%list.
Proof. now rewrite main_log, printed_app, printed_prints. Qed.

Lemma main_requests : requests (log (main rt w)) = requests (log body).
Proof. now rewrite main_log, requests_app, requests_prints. Qed.

Lemma body_with_key api_key :
  key_set w api_key -> body = main_with_key rt w api_key.
Proof.
  intros [E NE]. unfold body. rewrite E.
  apply String.eqb_neq in NE. now rewrite NE.
Qed.

Lemma body_without_key :
  (environ_api_key w = None \/ environ_api_key w = Some "") ->
  body = main_without_key.
Proof. unfold body. intros [-> | ->]; reflexivity. Qed.

Lemma call_directions_answered api_key places data :
  answered w api_key places data ->
  exists url,
    directions_url api_key places = Ok url
    /\ call_directions rt w api_key places
       = (read_directions rt places data, [HttpGet url]).
Proof.
  intros (url & Hu & Hd). exists url. split; [assumption|].
  rewrite call_directions_run, Hu, Hd. reflexivity.
Qed.

Lemma report_run api_key info op ll d t distance link :
  result (call_directions rt w api_key PLACES) = Ok info ->
  ordered_places_of PLACES (waypoint_order info) = Ok op ->
  iter (legs info) = Ok ll ->
  totals rt ll 0 0 = Ok (d, t) ->
  format_distance_meters d = Ok distance ->
  build_gmaps_share_link PLACES (waypoint_order info) = Ok link ->
  report rt w api_key
  = (Ok (polyline info, op),
     (log (call_directions rt w api_key PLACES)
      ++ map Print (report_lines op distance t link))%list).
Proof.
  intros Hc Ho Hl Ht Hd Hk. unfold report.
  rewrite (io_bind_ok _ _ info Hc). cbv zeta.
  rewrite Ho, io_bind_lift_ok, Hl, io_bind_lift_ok, Ht, io_bind_lift_ok.
  rewrite io_bind_print, print_numbered_run. cbn [fst snd].
  rewrite (io_bind_ok (Ok tt, _) _ tt) by reflexivity.
  rewrite Hd, io_bind_lift_ok, !io_bind_print, Hk, io_bind_lift_ok.
  rewrite !io_bind_print.
  unfold ret, result, log. cbn [fst snd]. unfold report_lines.
  f_equal. f_equal. rewrite map_app. cbn [map]. cbn [List.app].
  reflexivity.
Qed.

(** Nothing before the save step is recovered from. *)
Lemma main_with_key_raise api_key e :
  result (report rt w api_key) = Raise e ->
  main_with_key rt w api_key = (Raise e, log (report rt w api_key)).
Proof. intros H. unfold main_with_key. now apply io_bind_raise. Qed.

Lemma report_raise api_key e :
  result (call_directions rt w api_key PLACES) = Raise e ->
  report rt w api_key = (Raise e, log (call_directions rt w api_key PLACES)).
Proof. intros H. unfold report. now apply io_bind_raise. Qed.

Lemma main_with_key_run api_key r :
  result (report rt w api_key) = Ok r ->
  let s := save_static_map w api_key (fst r) (snd r) "spain_route.png" in
  main_with_key rt w api_key
  = match result s with
    | Ok path =>
        (Ok tt,
         (log (report rt w api_key) ++ log s
          ++ [Print (nl ++ "Static route map saved to: " ++ path)])%list)
    | Raise e =>
        (Ok tt,
         (log (report rt w api_key) ++ log s
          ++ [Print (nl ++ "Failed to save static map image: "
                     ++ str_of_exn rt e)])%list)
    | Exit c => (Exit c, (log (report rt w api_key) ++ log s)%list)
    end.
Proof.
  intros H s. unfold main_with_key.
  rewrite (io_bind_ok _ _ r H). rewrite save_step_run. fold s.
  destruct (result s); reflexivity.
Qed.

Lemma io_bind_result_inv {A B} (m : io A) (k : A -> io B) (b : B) :
  result (io_bind m k) = Ok b ->
  exists a, result m = Ok a /\ result (k a) = Ok b.
Proof.
  destruct m as [[a|e|c] l]; simpl; try discriminate.
  intros H. exists a. split; [reflexivity|]. now destruct (k a).
Qed.

Lemma io_bind_log_ok {A B} (m : io A) (k : A -> io B) (a : A) :
  result m = Ok a -> log (io_bind m k) = (log m ++ log (k a))%list.
Proof. intros H. now rewrite (io_bind_ok m k a H). Qed.

(** A report that ends well went through every step. *)
Lemma report_ok_inv api_key r :
  result (report rt w api_key) = Ok r ->
  exists info op ll d t distance link,
    result (call_directions rt w api_key PLACES) = Ok info
    /\ ordered_places_of PLACES (waypoint_order info) = Ok op
    /\ iter (legs info) = Ok ll
    /\ totals rt ll 0 0 = Ok (d, t)
    /\ format_distance_meters d = Ok distance
    /\ build_gmaps_share_link PLACES (waypoint_order info) = Ok link
    /\ r = (polyline info, op).
Proof.
  intros H. unfold report in H.
  apply io_bind_result_inv in H. destruct H as (info & Hc & H).
  apply io_bind_result_inv in H. destruct H as (op & Ho & H).
  apply io_bind_result_inv in H. destruct H as (ll & Hl & H).
  apply io_bind_result_inv in H. destruct H as ([d t] & Ht & H).
  rewrite io_bind_print in H. unfold result at 1 in H. cbn [fst] in H.
  apply io_bind_result_inv in H. destruct H as ([] & _ & H).
  apply io_bind_result_inv in H. destruct H as (distance & Hd & H).
  rewrite !io_bind_print in H. unfold result at 1 in H. cbn [fst] in H.
  unfold result at 1 in H. cbn [fst] in H.
  apply io_bind_result_inv in H. destruct H as (link & Hk & H).
  rewrite !io_bind_print in H. unfold result at 1 in H. cbn [fst] in H.
  unfold result at 1 in H. cbn [fst] in H.
  unfold ret, result in H. cbn [fst] in H. inversion H; subst r.
  exists info, op, ll, d, t, distance, link.
  unfold lift, result in Ho, Hl, Ht, Hd, Hk. cbn [fst snd] in *.
  auto 10.
Qed.

Lemma report_ok_run api_key r :
  result (report rt w api_key) = Ok r ->
  exists distance seconds link info,
    result (call_directions rt w api_key PLACES) = Ok info
    /\ ordered_places_of PLACES (waypoint_order info) = Ok (snd r)
    /\ build_gmaps_share_link PLACES (waypoint_order info) = Ok link
    /\ printed (log (report rt w api_key))
       = report_lines (snd r) distance seconds link.
Proof.
  intros H.
  destruct (report_ok_inv api_key r H)
    as (info & op & ll & d & t & distance & link
        & Hc & Ho & Hl & Ht & Hd & Hk & ->).
  exists distance, t, link, info. cbn [snd].
  repeat (split; [assumption|]).
  rewrite (report_run api_key info op ll d t distance link) by assumption.
  unfold log at 1. cbn [snd]. rewrite printed_app, printed_prints.
  rewrite call_directions_run.
  destruct (directions_url api_key PLACES); reflexivity.
Qed.

End WithHost.

End MainFacts.

(** ** The Directions call *)

Module Directions.

Import Py Route Url PyFacts UrlFacts RunFacts MainFacts.

(** The value [data.get(key, default)] reads from the items of a dict. *)
Definition field (key : string) (default : json) (items : list (string * json))
  : json :=
  match lookup key items with
  | Some v => v
  | None => default
  end.

(** The first route of an answer, when it has one that is an object. *)
Definition first_route (items : list (string * json))
  : option (list (string * json)) :=
  match lookup "routes" items with
  | Some (JArr (JObj route :: _)) => Some route
  | _ => None
  end.

(** The overview polyline of a route is absent or an object. *)
Definition overview_ok (route : list (string * json)) : Prop :=
  match lookup "overview_polyline" route with
  | None | Some (JObj _) => True
  | Some _ => False
  end.

Lemma ne_str_true v s : ne_str v s = true <-> v <> JStr s.
Proof.
  destruct v; simpl; try (split; [discriminate | reflexivity]).
  rewrite negb_true_iff. split.
  - intros E H. inversion H; subst. now rewrite String.eqb_refl in E.
  - intros H. apply String.eqb_neq. congruence.
Qed.

Lemma ne_str_false v s : ne_str v s = false <-> v = JStr s.
Proof.
  split.
  - intros E. destruct v; try discriminate. simpl in E.
    apply negb_false_iff, String.eqb_eq in E. now subst.
  - intros ->. simpl. now rewrite String.eqb_refl.
Qed.

Section WithHost.

Context (rt : runtime) (w : world).

Lemma read_directions_error places items :
  field "status" JNull items <> JStr "OK" ->
  read_directions rt places (JObj items)
  = Raise (RuntimeError
             ("Directions API error: " ++ str rt (field "status" JNull items)
              ++ " - " ++ str rt (field "error_message" (JStr "") items))).
Proof.
  intros H. apply ne_str_true in H. unfold read_directions. simpl get.
  cbn [bind]. fold (field "status" JNull items). rewrite H. reflexivity.
Qed.

Lemma read_directions_no_runtime_error places items msg :
  field "status" JNull items = JStr "OK" ->
  read_directions rt places (JObj items) <> Raise (RuntimeError msg).
Proof.
  intros H. unfold read_directions. simpl get. cbn [bind].
  fold (field "status" JNull items). rewrite H. simpl ne_str. cbv iota.
  unfold getitem_key.
  destruct (lookup "routes" items) as [routes|]; [|discriminate].
  cbn [bind].
  assert (G : forall r : outcome json,
             (forall m, r <> Raise (RuntimeError m)) ->
             forall k : json -> outcome info,
               (forall v m, k v <> Raise (RuntimeError m)) ->
               forall m0, bind r k <> Raise (RuntimeError m0)).
  { intros r Hr k Hk m0. destruct r; simpl; [apply Hk| |discriminate].
    intros E. apply (Hr m0). inversion E. reflexivity. }
  assert (Gget : forall (d : json) key def m,
             get d key def <> Raise (RuntimeError m)).
  { intros d key def m. destruct d; simpl; discriminate. }
  apply G.
  - intros m. destruct routes as [| | | | s | l | l]; simpl; try discriminate.
    + destruct s; discriminate.
    + unfold list_getitem. simpl.
      destruct (0 <? Z.of_nat (List.length l)); simpl; [|discriminate].
      destruct l; simpl; discriminate.
  - intros route m. apply G; [intros; apply Gget|].
    intros v1 m1. apply G; [intros; apply Gget|].
    intros v2 m2. apply G; [intros; apply Gget|].
    intros v3 m3. apply G; [intros; apply Gget|].
    intros v4 m4. discriminate.
Qed.

Lemma read_directions_ok places items route :
  field "status" JNull items = JStr "OK" ->
  first_route items = Some route ->
  overview_ok route ->
  exists points,
    read_directions rt places (JObj items)
    = Ok {| waypoint_order :=
              field "waypoint_order"
                (JArr (map JInt (range (List.length (slice_1_m1 places)))))
                route;
            legs := field "legs" (JArr []) route;
            polyline := points |}.
Proof.
  intros Hs Hr Ho. unfold read_directions. simpl get. cbn [bind].
  fold (field "status" JNull items). rewrite Hs. simpl ne_str. cbv iota.
  unfold first_route in Hr. unfold getitem_key.
  destruct (lookup "routes" items) as [[| | | | |[|[]]|]|]; try discriminate.
  inversion Hr; subst. cbn [bind getitem_0].
  change (list_getitem (JObj route :: l) 0) with (Ok (JObj route)).
  cbn [bind get]. unfold overview_ok in Ho. unfold field.
  destruct (lookup "overview_polyline" route) as [[]|]; try contradiction;
    cbn [bind get]; eexists; reflexivity.
Qed.

Lemma printed_call_directions api_key places :
  printed (log (call_directions rt w api_key places)) = [].
Proof.
  rewrite call_directions_run. destruct (directions_url api_key places);
    reflexivity.
Qed.

(** C1, as amended.  With the API key set and the Directions request
    answered by a JSON object: [call_directions] raises its
    [RuntimeError] exactly when the answer's status is missing or
    different from ["OK"], and the message is ["Directions API error: "],
    the status, [" - "] and the error message (empty when there is none).
    Whatever exception [call_directions] raises, [main] ends with it,
    having printed the planned stops only: no itinerary, no totals, no
    optimized share link. *)
Theorem directions_error (api_key : string) (items : list (string * json)) :
  key_set w api_key ->
  answered w api_key PLACES (JObj items) ->
  let status := field "status" JNull items in
  let error_message := field "error_message" (JStr "") items in
  ((exists msg,
      result (call_directions rt w api_key PLACES) = Raise (RuntimeError msg))
   <-> status <> JStr "OK")
  /\ (status <> JStr "OK" ->
      result (call_directions rt w api_key PLACES)
      = Raise (RuntimeError ("Directions API error: " ++ str rt status
                             ++ " - " ++ str rt error_message)))
  /\ (forall e,
        result (call_directions rt w api_key PLACES) = Raise e ->
        result (main rt w) = Raise e
        /\ printed (log (main rt w)) = header_lines).
Proof.
  intros Hk Ha status error_message.
  destruct (call_directions_answered rt w _ _ _ Ha) as (url & Hu & Hc).
  assert (R : result (call_directions rt w api_key PLACES)
              = read_directions rt PLACES (JObj items))
    by now rewrite Hc.
  split; [|split].
  - rewrite R. split.
    + intros [msg Hm] E.
      exact (read_directions_no_runtime_error PLACES items msg E Hm).
    + intros NE. eexists. now apply read_directions_error.
  - intros NE. rewrite R. now apply read_directions_error.
  - intros e He.
    assert (B : main_with_key rt w api_key
                = (Raise e, log (call_directions rt w api_key PLACES))).
    { rewrite (main_with_key_raise rt w api_key e)
        by (rewrite (report_raise rt w api_key e He); reflexivity).
      now rewrite (report_raise rt w api_key e He). }
    rewrite main_result, main_printed, (body_with_key rt w api_key Hk), B.
    split; [reflexivity|].
    change (log (Raise e, log (call_directions rt w api_key PLACES)))
      with (log (call_directions rt w api_key PLACES)).
    rewrite printed_call_directions. apply app_nil_r.
Qed.

End WithHost.

(** A refused request: the error names the status and the message, and
    the run ends there. *)
Lemma directions_error_witness :
  key_set Sample.world_denied "KEY"
  /\ result (call_directions Sample.runtime0 Sample.world_denied "KEY" PLACES)
     = Raise (RuntimeError "Directions API error: REQUEST_DENIED - bad key")
  /\ result (main Sample.runtime0 Sample.world_denied)
     = Raise (RuntimeError "Directions API error: REQUEST_DENIED - bad key").
Proof.
  assert (K : key_set Sample.world_denied "KEY")
    by (split; [reflexivity | discriminate]).
  assert (A : answered Sample.world_denied "KEY" PLACES
                (JObj [("status", JStr "REQUEST_DENIED");
                       ("error_message", JStr "bad key")]))
    by (eexists; split; reflexivity).
  destruct (directions_error Sample.runtime0 Sample.world_denied "KEY" _ K A)
    as (_ & Hmsg & Hmain).
  split; [exact K|]. split.
  - apply Hmsg. discriminate.
  - apply Hmain. apply Hmsg. discriminate.
Defined.

(** An answer with status ["OK"] and no route: [call_directions] raises
    all the same, so a status different from ["OK"] is not the only way
    for it to raise. *)
Lemma directions_ok_status_raises :
  answered Sample.world_no_route "KEY" PLACES Sample.no_route
  /\ lookup "status" [("status", JStr "OK"); ("routes", JArr [])]
     = Some (JStr "OK")
  /\ result (call_directions Sample.runtime0 Sample.world_no_route "KEY" PLACES)
     = Raise IndexError.
Proof.
  split; [eexists; split; reflexivity|]. split; reflexivity.
Qed.

End Directions.

(** ** The itinerary: default order and fixed endpoints *)

Module Itinerary.

Import Py Route Url PyFacts UrlFacts RunFacts MainFacts Directions ShareLink.

(** The parameters of the Directions request. *)
Definition directions_params (api_key first last : string) (mid : list string)
  : list (string * string) :=
  List.app
    [("origin", first); ("destination", last); ("mode", "driving");
     ("language", "en"); ("key", api_key)]
    match mid with
    | [] => []
    | _ => [("waypoints", "optimize:true|" ++ Str.join "|" mid)]
    end.

Lemma directions_url_text api_key first mid last :
  directions_url api_key (first :: mid ++ [last])
  = Ok ("https://maps.googleapis.com/maps/api/directions/json" ++ "?"
        ++ Str.join "&"
             (map pair_text (directions_params api_key first last mid))).
Proof.
  unfold directions_url.
  rewrite first_item_cons, last_item_ends. cbn [bind].
  rewrite slice_ends. unfold directions_params. destruct mid; reflexivity.
Qed.

Lemma directions_url_params api_key first mid last :
  exists url,
    directions_url api_key (first :: mid ++ [last]) = Ok url
    /\ params url = directions_params api_key first last mid.
Proof.
  eexists. split; [apply directions_url_text|].
  apply params_of_query.
  - reflexivity.
  - unfold directions_params. discriminate.
  - unfold directions_params. destruct mid; reflexivity.
Qed.

Lemma ordered_places_ends first mid last (order : list Z) :
  in_range (List.length mid) order ->
  ordered_places_of (first :: mid ++ [last]) (JArr (map JInt order))
  = Ok (first :: select mid order ++ [last]).
Proof.
  intros H. unfold ordered_places_of.
  rewrite (pick_waypoints_ends first mid last order H).
  cbn [bind]. rewrite first_item_cons, last_item_ends. reflexivity.
Qed.

Section WithHost.

Context (rt : runtime) (w : world).

(** The order a route of the answer carries goes out as it is. *)
Lemma returned_order_two_places api_key first last items route info :
  answered w api_key [first; last] (JObj items) ->
  first_route items = Some route ->
  result (call_directions rt w api_key [first; last]) = Ok info ->
  waypoint_order info = field "waypoint_order" (JArr []) route.
Proof.
  intros Ha Hr R.
  destruct (call_directions_answered rt w _ _ _ Ha) as (url & _ & Hc).
  rewrite Hc in R. unfold result in R. cbn [fst] in R.
  unfold read_directions in R. simpl get in R. cbn [bind] in R.
  destruct (ne_str _ "OK"); [discriminate|].
  unfold getitem_key in R. unfold first_route in Hr.
  destruct (lookup "routes" items) as [[| | | | |[|[] rest]|]|];
    try discriminate.
  injection Hr as ->. cbn [bind getitem_0] in R.
  rewrite (list_getitem_nth (JObj route :: rest) 0 JNull) in R
    by (cbn [List.length]; lia).
  cbn [bind Z.to_nat nth get] in R. unfold field.
  destruct (lookup "overview_polyline" route) as [[]|]; cbn [bind get] in R;
    try discriminate; injection R as <-; cbn [waypoint_order];
    destruct (lookup "waypoint_order" route); reflexivity.
Qed.

(** C9, as amended.  When the answer (status ["OK"], a first route
    that is an object) has no ["waypoint_order"] field,
    [call_directions] returns the identity order
    [list(range(len(waypoints)))] and the itinerary built from it is the
    original list of places.  With exactly two places the request
    carries no [waypoints] parameter, whatever the answer is, and the
    order returned is the one of the answer as it is: empty when the
    answer has no ["waypoint_order"] field or an empty one. *)
Theorem default_waypoint_order (api_key first last : string)
    (mid : list string) :
  (forall items route,
     answered w api_key (first :: mid ++ [last]) (JObj items) ->
     field "status" JNull items = JStr "OK" ->
     first_route items = Some route ->
     overview_ok route ->
     lookup "waypoint_order" route = None ->
     exists info url,
       call_directions rt w api_key (first :: mid ++ [last])
       = (Ok info, [HttpGet url])
       /\ waypoint_order info = JArr (map JInt (range (List.length mid)))
       /\ ordered_places_of (first :: mid ++ [last]) (waypoint_order info)
          = Ok (first :: mid ++ [last]))
  /\ (exists url,
        log (call_directions rt w api_key [first; last]) = [HttpGet url]
        /\ value "waypoints" (params url) = None
        /\ params url
           = [("origin", first); ("destination", last); ("mode", "driving");
              ("language", "en"); ("key", api_key)])
  /\ (forall items route info,
        answered w api_key [first; last] (JObj items) ->
        first_route items = Some route ->
        result (call_directions rt w api_key [first; last]) = Ok info ->
        waypoint_order info = field "waypoint_order" (JArr []) route
        /\ (lookup "waypoint_order" route = None
            \/ lookup "waypoint_order" route = Some (JArr []) ->
            waypoint_order info = JArr [])).
Proof.
  split; [|split].
  - intros items route Ha Hs Hr Ho Hn.
    destruct (call_directions_answered rt w _ _ _ Ha) as (url & Hu & Hc).
    destruct (read_directions_ok rt (first :: mid ++ [last]) items route
                Hs Hr Ho) as (points & Hread).
    rewrite slice_ends in Hread. unfold field at 1 in Hread.
    rewrite Hn in Hread.
    eexists. exists url. rewrite Hc, Hread. split; [reflexivity|].
    cbn [waypoint_order]. split; [reflexivity|].
    rewrite ordered_places_ends by apply in_range_range.
    now rewrite select_range.
  - destruct (directions_url_params api_key first [] last) as (url & Hu & Hp).
    exists url. split.
    + rewrite call_directions_run.
      change [first; last] with (first :: [] ++ [last]). now rewrite Hu.
    + rewrite Hp. split; reflexivity.
  - intros items route info Ha Hr R.
    pose proof (returned_order_two_places _ _ _ _ _ _ Ha Hr R) as E.
    split; [exact E|].
    rewrite E. unfold field. intros [-> | ->]; reflexivity.
Qed.

End WithHost.

(** The five places of the script, answered without an order. *)
Lemma default_waypoint_order_witness :
  answered Sample.world_no_order "KEY" PLACES Sample.answer_no_order
  /\ exists info url,
       call_directions Sample.runtime0 Sample.world_no_order "KEY" PLACES
       = (Ok info, [HttpGet url])
       /\ waypoint_order info = JArr [JInt 0; JInt 1; JInt 2]
       /\ ordered_places_of PLACES (waypoint_order info) = Ok PLACES.
Proof.
  assert (A : answered Sample.world_no_order "KEY" PLACES Sample.answer_no_order)
    by (eexists; split; reflexivity).
  split; [exact A|].
  destruct (proj1 (default_waypoint_order Sample.runtime0 Sample.world_no_order
                     "KEY"
                     "Royal Monastery of El Escorial, San Lorenzo de El Escorial, Spain"
                     "Toledo Cathedral, Toledo, Spain" (slice_1_m1 PLACES))
              _ _ A eq_refl eq_refl I eq_refl)
    as (info & url & Hc & Hw & Ho).
  exists info, url. split; [exact Hc|]. split; [exact Hw | exact Ho].
Defined.

(** An answer to a request for two places that names a waypoint. *)
Definition answer_order_zero : json :=
  JObj [("status", JStr "OK");
        ("routes", JArr [JObj [("waypoint_order", JArr [JInt 0])]])].

Definition world_order_zero : world :=
  Sample.world_of (Some "KEY") answer_order_zero (inr []).

(** With two places and that answer the order returned is not empty:
    [call_directions] hands on what the service sent. *)
Lemma two_places_order_not_empty :
  answered world_order_zero "KEY" ["A"; "B"] answer_order_zero
  /\ result (call_directions Sample.runtime0 world_order_zero "KEY" ["A"; "B"])
     = Ok {| waypoint_order := JArr [JInt 0];
             legs := JArr [];
             polyline := JStr "" |}
  /\ JArr [JInt 0] <> JArr [].
Proof.
  split; [eexists; split; reflexivity|]. split; [reflexivity | discriminate].
Qed.

End Itinerary.

(** ** Network calls and the one recovery *)

Module Network.

Import Py Route Url PyFacts RunFacts MainFacts.
Local Open Scope py_scope.

(** A computation that never reaches the network. *)
Definition quiet {A} (m : io A) : Prop := requests (log m) = [].

Lemma quiet_lift {A} (o : outcome A) : quiet (lift o).
Proof. reflexivity. Qed.

Lemma quiet_ret {A} (a : A) : quiet (ret a).
Proof. reflexivity. Qed.

Lemma quiet_print s : quiet (print s).
Proof. reflexivity. Qed.

Lemma quiet_print_numbered i l : quiet (print_numbered i l).
Proof.
  unfold quiet. rewrite print_numbered_run. apply requests_prints.
Qed.

Lemma quiet_exit {A} c : quiet (@sys_exit A c).
Proof. reflexivity. Qed.

Lemma quiet_bind {A B} (m : io A) (k : A -> io B) :
  quiet m -> (forall a, quiet (k a)) -> quiet (io_bind m k).
Proof.
  unfold quiet. intros Hm Hk. destruct m as [[a|e|c] l]; simpl in *;
    try assumption.
  specialize (Hk a). destruct (k a) as [r l']. simpl in *.
  now rewrite requests_app, Hm, Hk.
Qed.

Create HintDb quiet.
#[local] Hint Resolve quiet_lift quiet_ret quiet_print quiet_print_numbered
  quiet_exit : quiet.

Ltac quiet_steps :=
  repeat (apply quiet_bind; [auto with quiet | intros ?]); auto with quiet.

Lemma quiet_main_without_key : quiet main_without_key.
Proof. reflexivity. Qed.

(** An outcome that is a value or an exception, never [sys.exit]. *)
Definition returns_or_raises {A} (o : outcome A) : Prop :=
  forall c, o <> Exit c.

Lemma bind_ror {A B} (m : outcome A) (k : A -> outcome B) :
  returns_or_raises m -> (forall a, returns_or_raises (k a)) ->
  returns_or_raises (bind m k).
Proof.
  intros Hm Hk c. destruct m as [a|e|c']; simpl.
  - apply Hk.
  - discriminate.
  - exfalso. exact (Hm c' eq_refl).
Qed.

Lemma ok_ror {A} (a : A) : returns_or_raises (Ok a).
Proof. intros c. discriminate. Qed.

Lemma raise_ror {A} (e : exn) : returns_or_raises (@Raise A e).
Proof. intros c. discriminate. Qed.

Lemma traverse_ror {A B} (f : A -> outcome B) (l : list A) :
  (forall x, returns_or_raises (f x)) -> returns_or_raises (traverse f l).
Proof.
  intros Hf. induction l as [|x l IH]; simpl; [apply ok_ror|].
  apply bind_ror; [apply Hf|]. intros y.
  apply bind_ror; [apply IH|]. intros ys. apply ok_ror.
Qed.

Lemma marker_label_ror i : returns_or_raises (marker_label i).
Proof.
  unfold marker_label, chr.
  destruct ((1 <=? i) && (i <=? 9)); [apply ok_ror|].
  destruct ((0 <=? 65 + (i - 10)) && (65 + (i - 10) <? 1114112));
    [apply ok_ror | apply raise_ror].
Qed.

Lemma markers_ror i l : returns_or_raises (markers i l).
Proof.
  revert i. induction l as [|p l IH]; intros i; simpl; [apply ok_ror|].
  apply bind_ror; [apply marker_label_ror|]. intros label.
  apply bind_ror; [apply IH|]. intros more. apply ok_ror.
Qed.

Lemma static_map_url_ror api_key polyline ordered_places :
  returns_or_raises (static_map_url api_key polyline ordered_places).
Proof.
  unfold static_map_url.
  apply bind_ror; [apply markers_ror|]. intros ms.
  apply bind_ror.
  - destruct polyline; simpl; (apply ok_ror || apply raise_ror).
  - intros q. apply bind_ror; [|intros; apply ok_ror].
    apply traverse_ror. intros [k [v|]]; (apply ok_ror || apply raise_ror).
Qed.

Section WithHost.

Context (rt : runtime) (w : world).

Lemma save_static_map_ror api_key polyline ordered_places out_path :
  returns_or_raises
    (result (save_static_map w api_key polyline ordered_places out_path)).
Proof.
  rewrite save_static_map_run.
  pose proof (static_map_url_ror api_key polyline ordered_places) as H.
  destruct (static_map_url api_key polyline ordered_places) as [url|e|c].
  - destruct (urlopen_bytes w url); [apply raise_ror|].
    destruct (open_file w out_path); [apply raise_ror|].
    destruct (write_file w out_path l); (apply ok_ror || apply raise_ror).
  - apply raise_ror.
  - exfalso. exact (H c eq_refl).
Qed.

Lemma printed_save_static_map api_key polyline ordered_places out_path :
  printed (log (save_static_map w api_key polyline ordered_places out_path))
  = [].
Proof.
  rewrite save_static_map_run.
  destruct (static_map_url api_key polyline ordered_places) as [url|e|c];
    try reflexivity.
  destruct (urlopen_bytes w url); [reflexivity|].
  destruct (open_file w out_path); [reflexivity|].
  destruct (write_file w out_path l); reflexivity.
Qed.

(** Once the report is printed the run completes, with one more line. *)
Lemma main_completes api_key r :
  key_set w api_key ->
  result (report rt w api_key) = Ok r ->
  result (main rt w) = Ok tt
  /\ exists final,
       printed (log (main rt w))
       = (header_lines ++ printed (log (report rt w api_key)) ++ [final])%list.
Proof.
  intros Hk Hr.
  pose proof (main_with_key_run rt w api_key r Hr) as H. cbv zeta in H.
  pose proof (save_static_map_ror api_key (fst r) (snd r) "spain_route.png")
    as NE.
  rewrite main_result, main_printed, (body_with_key rt w api_key Hk), H.
  destruct (result (save_static_map w api_key (fst r) (snd r)
                      "spain_route.png")) as [path|e|c];
    [| |exfalso; exact (NE c eq_refl)];
    (split; [reflexivity|]); eexists;
    unfold log at 1; cbn [snd];
    rewrite !printed_app, printed_save_static_map; reflexivity.
Qed.

Lemma report_requests api_key :
  requests (log (report rt w api_key))
  = requests (log (call_directions rt w api_key PLACES)).
Proof.
  unfold report.
  destruct (call_directions rt w api_key PLACES) as [[info|e|c] l] eqn:E;
    try reflexivity.
  rewrite (io_bind_log_ok _ _ info) by reflexivity.
  rewrite requests_app.
  match goal with
  | |- (_ ++ requests (log ?m))%list = _ =>
      assert (Q : quiet m) by quiet_steps
  end.
  rewrite Q. apply app_nil_r.
Qed.

(** The requests of a run with the key set: those of [call_directions],
    then those of [save_static_map] when the report got through. *)
Lemma main_with_key_requests api_key :
  requests (log (main_with_key rt w api_key))
  = (requests (log (call_directions rt w api_key PLACES))
     ++ match result (report rt w api_key) with
        | Ok r =>
            requests (log (save_static_map w api_key (fst r) (snd r)
                             "spain_route.png"))
        | _ => []
        end)%list.
Proof.
  destruct (result (report rt w api_key)) as [r|e|c] eqn:E.
  - pose proof (main_with_key_run rt w api_key r E) as H. cbv zeta in H.
    pose proof (save_static_map_ror api_key (fst r) (snd r) "spain_route.png")
      as NE.
    rewrite H.
    destruct (result (save_static_map w api_key (fst r) (snd r)
                        "spain_route.png")) as [path|e|c];
      [| |exfalso; exact (NE c eq_refl)];
      unfold log at 1; cbn [snd];
      rewrite !requests_app, report_requests; simpl requests at 3;
      now rewrite app_nil_r.
  - rewrite (main_with_key_raise rt w api_key e E).
    unfold log at 1. cbn [snd]. rewrite report_requests.
    now rewrite app_nil_r.
  - unfold main_with_key. rewrite (io_bind_exit _ _ c E).
    unfold log at 1. cbn [snd]. rewrite report_requests.
    now rewrite app_nil_r.
Qed.

(** C4. Every run performs at most two network calls: the requests of
    [main] are those of its one [call_directions], then those of its one
    [save_static_map], each of which asks once at most; when
    GOOGLE_MAPS_API_KEY is unset (or empty) the run performs none and
    exits with code 0 after printing the share link in the original
    order. *)
Theorem network_calls_bounded :
  (List.length (requests (log (main rt w))) <= 2)%nat
  /\ (forall api_key places,
        (List.length (requests (log (call_directions rt w api_key places)))
         <= 1)%nat)
  /\ (forall api_key polyline ordered_places out_path,
        (List.length
           (requests (log (save_static_map w api_key polyline ordered_places
                             out_path))) <= 1)%nat)
  /\ (forall api_key,
        key_set w api_key ->
        requests (log (main rt w))
        = (requests (log (call_directions rt w api_key PLACES))
           ++ match result (report rt w api_key) with
              | Ok r =>
                  requests (log (save_static_map w api_key (fst r) (snd r)
                                   "spain_route.png"))
              | _ => []
              end)%list)
  /\ (environ_api_key w = None \/ environ_api_key w = Some "" ->
      result (main rt w) = Exit 0
      /\ requests (log (main rt w)) = []
      /\ exists link,
           build_gmaps_share_link PLACES JNull = Ok link
           /\ printed (log (main rt w))
              = (header_lines ++ no_key_lines link)%list).
Proof.
  assert (K : forall api_key,
             (List.length (requests (log (main_with_key rt w api_key))) <= 2)%nat).
  { intros api_key. rewrite main_with_key_requests, length_app.
    pose proof (call_directions_requests rt w api_key PLACES).
    destruct (result (report rt w api_key)) as [r|e|c]; simpl List.length;
      try lia.
    pose proof (save_static_map_requests w api_key (fst r) (snd r)
                  "spain_route.png"). lia. }
  split; [|split; [|split; [|split]]].
  - rewrite main_requests. unfold body.
    destruct (environ_api_key w) as [api_key|]; [|simpl; lia].
    destruct (String.eqb api_key ""); [simpl; lia | apply K].
  - apply call_directions_requests.
  - intros. apply save_static_map_requests.
  - intros api_key Hk.
    rewrite main_requests, (body_with_key rt w api_key Hk).
    apply main_with_key_requests.
  - intros Hn.
    rewrite main_result, main_requests, main_printed.
    rewrite (body_without_key rt w) by assumption.
    destruct main_without_key_run as (link & Hl & Hrun).
    rewrite Hrun. split; [reflexivity|]. split; [apply requests_prints|].
    exists link. split; [assumption|].
    unfold log. cbn [snd]. now rewrite printed_prints.
Qed.

End WithHost.

End Network.

(** ** The one failure that is recovered from *)

Module Recovery.

Import Py Route PyFacts RunFacts MainFacts Network.

Section WithHost.

Context (rt : runtime) (w : world).

(** The report does not depend on the image service or the file system. *)
Lemma report_same_directions (w' : world) api_key :
  (forall url, urlopen_json w' url = urlopen_json w url) ->
  report rt w' api_key = report rt w api_key.
Proof.
  intros H. unfold report.
  replace (call_directions rt w' api_key PLACES)
    with (call_directions rt w api_key PLACES); [reflexivity|].
  rewrite !call_directions_run.
  destruct (directions_url api_key PLACES); try reflexivity.
  now rewrite H.
Qed.

(** C2. With the API key set: when the report (itinerary, totals, share
    link) has been printed and saving the static map image raises any
    exception [e], [main] catches it, prints the failure message with [e]
    and completes normally; the lines printed before it are those of the
    report, which are the same whatever the image service and the file
    system do.  Nothing else is recovered from: an exception raised
    before the save step ends the run. *)
Theorem save_failure_caught (api_key : string) :
  key_set w api_key ->
  (forall r e,
     result (report rt w api_key) = Ok r ->
     result (save_static_map w api_key (fst r) (snd r) "spain_route.png")
     = Raise e ->
     result (main rt w) = Ok tt
     /\ printed (log (main rt w))
        = (header_lines ++ printed (log (report rt w api_key))
           ++ [(nl ++ "Failed to save static map image: "
                ++ str_of_exn rt e)%string])%list
     /\ (exists distance seconds link,
           printed (log (report rt w api_key))
           = report_lines (snd r) distance seconds link)
     /\ (forall w',
           (forall url, urlopen_json w' url = urlopen_json w url) ->
           report rt w' api_key = report rt w api_key))
  /\ (forall e,
        result (report rt w api_key) = Raise e ->
        result (main rt w) = Raise e)
  /\ (forall e,
        result (call_directions rt w api_key PLACES) = Raise e ->
        result (main rt w) = Raise e).
Proof.
  intros Hk.
  assert (R : forall e, result (report rt w api_key) = Raise e ->
                        result (main rt w) = Raise e).
  { intros e He.
    rewrite main_result, (body_with_key rt w api_key Hk).
    now rewrite (main_with_key_raise rt w api_key e He). }
  split; [|split].
  - intros r e Hr Hs.
    pose proof (main_with_key_run rt w api_key r Hr) as H. cbv zeta in H.
    rewrite Hs in H.
    rewrite main_result, main_printed, (body_with_key rt w api_key Hk), H.
    split; [reflexivity|]. split.
    + unfold log at 1. cbn [snd]. rewrite !printed_app.
      rewrite printed_save_static_map. reflexivity.
    + split.
      * destruct (report_ok_run rt w api_key r Hr)
          as (distance & seconds & link & info & _ & _ & _ & Hp).
        now exists distance, seconds, link.
      * intros w' Hw. now apply report_same_directions.
  - exact R.
  - intros e He. apply R.
    now rewrite (report_raise rt w api_key e He).
Qed.

End WithHost.

(** The image request is refused with HTTP 403: the run completes and
    the last line reports the failure. *)
Lemma save_failure_caught_witness :
  key_set Sample.world_no_image "KEY"
  /\ result (main Sample.runtime0 Sample.world_no_image) = Ok tt
  /\ List.last (printed (log (main Sample.runtime0 Sample.world_no_image))) ""
     = nl ++ "Failed to save static map image: HTTP Error 403: Forbidden".
Proof.
  assert (K : key_set Sample.world_no_image "KEY")
    by (split; [reflexivity | discriminate]).
  split; [exact K|].
  destruct (save_failure_caught Sample.runtime0 Sample.world_no_image "KEY" K)
    as (H & _).
  destruct (report Sample.runtime0 Sample.world_no_image "KEY")
    as [[r|e|c] l] eqn:E; try (vm_compute in E; discriminate).
  destruct (H r (HostError "HTTP Error 403: Forbidden") eq_refl) as (H1 & H2 & _).
  - vm_compute in E. inversion E; subst. reflexivity.
  - split; [exact H1|]. rewrite H2. rewrite !app_assoc. apply last_last.
Defined.

End Recovery.

(** ** Totals *)

Module Totals.

Import Py Route PyFacts RunFacts MainFacts.

(** The integer a leg contributes for [field]: its ["value"], or 0 when
    the [field] object is missing, has no ["value"], or has [None] there. *)
Definition contribution (field : string) (leg : list (string * json))
  : option Z :=
  match lookup field leg with
  | None => Some 0
  | Some (JObj o) =>
      match lookup "value" o with
      | None => Some 0
      | Some JNull => Some 0
      | Some (JInt n) => Some n
      | Some _ => None
      end
  | Some _ => None
  end.

(** A leg with integer (or missing) distance and duration. *)
Definition measured (leg : json) (dt : Z * Z) : Prop :=
  exists items,
    leg = JObj items
    /\ contribution "distance" items = Some (fst dt)
    /\ contribution "duration" items = Some (snd dt).

Definition sum (l : list Z) : Z := fold_right Z.add 0 l.

Section WithHost.

Context (rt : runtime) (w : world).

Lemma contribution_value field items n :
  contribution field items = Some n ->
  exists x v,
    get (JObj items) field (JObj []) = Ok x
    /\ get x "value" (JInt 0) = Ok v
    /\ int rt (or_else v (JInt 0)) = Ok n.
Proof.
  unfold contribution. simpl get.
  destruct (lookup field items) as [[| | | | | |o]|]; try discriminate.
  - intros E. exists (JObj o). simpl get.
    destruct (lookup "value" o) as [[| |m| | | |]|]; try discriminate;
      inversion E; subst; eexists; (split; [reflexivity|]);
      (split; [reflexivity|]); try reflexivity.
    unfold or_else. simpl truthy.
    destruct (n =? 0) eqn:Z0; simpl; [|reflexivity].
    apply Z.eqb_eq in Z0. now subst.
  - intros E. inversion E; subst. exists (JObj []), (JInt 0).
    repeat split; reflexivity.
Qed.

Lemma totals_measured legs dts a b :
  Forall2 measured legs dts ->
  totals rt legs a b = Ok (a + sum (map fst dts), b + sum (map snd dts)).
Proof.
  intros H. revert a b.
  induction H as [|leg dt legs dts (items & -> & Hd & Ht) _ IH]; intros a b.
  - simpl. now rewrite !Z.add_0_r.
  - destruct (contribution_value "distance" items _ Hd)
      as (x & v & G1 & G2 & G3).
    destruct (contribution_value "duration" items _ Ht)
      as (x' & v' & G1' & G2' & G3').
    cbn [totals].
    rewrite G1. cbn [bind]. rewrite G2. cbn [bind].
    rewrite G1'. cbn [bind]. rewrite G2'. cbn [bind].
    rewrite G3. cbn [bind]. rewrite G3'. cbn [bind].
    rewrite IH. cbn [map]. unfold sum. cbn [fold_right]. f_equal. f_equal; lia.
Qed.

(** C10. For legs with integer distances and durations (a missing
    ["distance"]/["duration"] object, a missing ["value"] or a [None]
    or zero value counting 0), the totals loop yields the sums over the
    legs, and [main] prints exactly these: the formatted sum of the
    distances after ["Total Distance: "] and the formatted sum of the
    durations after ["Total Duration: "]. *)
Theorem totals_are_sums (api_key : string) (info : Route.info)
    (leg_list : list json) (dts : list (Z * Z)) (distance : string) :
  key_set w api_key ->
  result (call_directions rt w api_key PLACES) = Ok info ->
  legs info = JArr leg_list ->
  Forall2 measured leg_list dts ->
  format_distance_meters (sum (map fst dts)) = Ok distance ->
  (exists op, ordered_places_of PLACES (waypoint_order info) = Ok op) ->
  totals rt leg_list 0 0 = Ok (sum (map fst dts), sum (map snd dts))
  /\ exists before after,
       printed (log (main rt w))
       = (before
          ++ [(nl ++ "Total Distance: " ++ distance)%string;
              ("Total Duration: "
               ++ format_duration_seconds (sum (map snd dts)))%string]
          ++ after)%list.
Proof.
  intros Hk Hc Hl Hm Hd (op & Ho).
  pose proof (totals_measured leg_list dts 0 0 Hm) as Ht.
  rewrite !Z.add_0_l in Ht. split; [exact Ht|].
  assert (L : exists link,
             build_gmaps_share_link PLACES (waypoint_order info) = Ok link).
  { unfold ordered_places_of in Ho. unfold build_gmaps_share_link.
    destruct (pick_waypoints PLACES (waypoint_order info)) as [ws| |] eqn:P;
      try discriminate.
    change (first_item PLACES) with (Ok (nth 0 PLACES "")).
    change (last_item PLACES) with (Ok (nth 4 PLACES "")).
    cbn [bind].
    destruct (waypoint_order info) eqn:W; cbn [bind]; eexists; reflexivity. }
  destruct L as (link & Hlink).
  assert (R : report rt w api_key
              = (Ok (polyline info, op),
                 (log (call_directions rt w api_key PLACES)
                  ++ map Print (report_lines op distance
                                  (sum (map snd dts)) link))%list)).
  { apply (report_run rt w api_key info op leg_list
             (sum (map fst dts)) (sum (map snd dts)) distance link);
      try assumption.
    now rewrite Hl. }
  assert (Rr : result (report rt w api_key) = Ok (polyline info, op))
    by now rewrite R.
  destruct (Network.main_completes rt w api_key _ Hk Rr) as (_ & final & Hp).
  rewrite Hp, R. unfold log at 1. cbn [snd].
  rewrite printed_app, printed_prints.
  rewrite (Directions.printed_call_directions rt w). cbn [List.app].
  unfold report_lines.
  exists (header_lines ++ "Optimized Itinerary:" :: numbered 1 op)%list.
  exists [nl ++ "Open this link for directions (optimized order):"; link; final].
  rewrite <- !app_assoc. cbn [List.app]. reflexivity.
Qed.

End WithHost.

(** The sample answer: four legs, 123.1 km and 7140 seconds in all. *)
Lemma totals_are_sums_witness :
  key_set Sample.world_ok "KEY"
  /\ totals Sample.runtime0
       [Sample.leg 48000 3000; Sample.leg 1200 300; Sample.leg 900 240;
        Sample.leg 73000 3600] 0 0
     = Ok (123100, 7140).
Proof.
  assert (K : key_set Sample.world_ok "KEY")
    by (split; [reflexivity | discriminate]).
  split; [exact K|].
  refine (proj1 (totals_are_sums Sample.runtime0 Sample.world_ok "KEY"
                   {| waypoint_order := JArr [JInt 2; JInt 0; JInt 1];
                      legs := JArr [Sample.leg 48000 3000; Sample.leg 1200 300;
                                    Sample.leg 900 240; Sample.leg 73000 3600];
                      polyline := JStr "a~l~Fjk~uOwHJy@P" |}
                   _ [(48000, 3000); (1200, 300); (900, 240); (73000, 3600)]
                   "123 km" K eq_refl eq_refl _ eq_refl _)).
  - repeat (constructor; [eexists; repeat split; reflexivity|]). constructor.
  - eexists. reflexivity.
Defined.

End Totals.

(** ** Endpoints *)

Module Endpoints.

Import Py Route Url PyFacts UrlFacts RunFacts MainFacts ShareLink Itinerary.

(** C8. Optimization never moves the endpoints.  For places
    [first :: mid ++ [last]] and every order that is a permutation of the
    indices of [mid]: the ordered itinerary is [first], the places of
    [mid] in that order (a permutation of [mid]), then [last]; the share
    link has [first] as origin, [last] as destination and those middle
    places as waypoints.  When these are the places of the script and
    that order is the one [call_directions] returned, every run of [main]
    that prints its report prints this itinerary and this link. *)
Theorem endpoints_fixed (first last : string) (mid : list string)
    (order : list Z) :
  Permutation order (range (List.length mid)) ->
  ordered_places_of (first :: mid ++ [last]) (JArr (map JInt order))
  = Ok (first :: select mid order ++ [last])
  /\ Permutation (select mid order) mid
  /\ (exists url,
        build_gmaps_share_link (first :: mid ++ [last]) (JArr (map JInt order))
        = Ok url
        /\ value "origin" (params url) = Some first
        /\ value "destination" (params url) = Some last
        /\ params url = link_params first last (select mid order))
  /\ (forall rt w api_key info r,
        first :: mid ++ [last] = PLACES ->
        key_set w api_key ->
        result (call_directions rt w api_key PLACES) = Ok info ->
        waypoint_order info = JArr (map JInt order) ->
        result (report rt w api_key) = Ok r ->
        exists distance seconds link final,
          printed (log (main rt w))
          = (header_lines
             ++ report_lines (first :: select mid order ++ [last])
                  distance seconds link
             ++ [final])%list
          /\ value "origin" (params link) = Some first
          /\ value "destination" (params link) = Some last
          /\ params link = link_params first last (select mid order)).
Proof.
  intros P.
  assert (R : in_range (List.length mid) order).
  { unfold in_range. apply (Permutation_Forall (Permutation_sym P)).
    apply in_range_range. }
  destruct (share_link_read first mid last (Some order) R)
    as (url & Hu & _ & Hp).
  simpl order_arg in Hu. simpl chosen in Hp.
  destruct (link_params_values first last (select mid order))
    as (Ho & Hd & _).
  rewrite <- Hp in Ho, Hd.
  split; [now apply ordered_places_ends|]. split; [|split].
  - rewrite <- (select_range mid) at 2. unfold select.
    now apply Permutation_map.
  - exists url. auto.
  - intros rt w api_key info r E Hk Hc Hw Hr.
    destruct (report_ok_run rt w api_key r Hr)
      as (distance & seconds & link & info' & Hc' & Hop & Hlink & Hlines).
    assert (info' = info) by congruence. subst info'.
    rewrite Hw, <- E in Hop, Hlink.
    rewrite (ordered_places_ends first mid last order R) in Hop.
    assert (link = url) by congruence. subst link.
    destruct (Network.main_completes rt w api_key r Hk Hr) as (_ & final & Hm).
    assert (S : snd r = first :: select mid order ++ [last]) by congruence.
    exists distance, seconds, url, final.
    rewrite Hm, Hlines, S. auto.
Qed.

(** The places of the script, third waypoint first. *)
Lemma endpoints_fixed_witness :
  Permutation [2; 0; 1] (range 3)
  /\ ordered_places_of PLACES (JArr [JInt 2; JInt 0; JInt 1])
     = Ok [ "Royal Monastery of El Escorial, San Lorenzo de El Escorial, Spain";
            "San Ginés de Arlés Church, Madrid, Spain";
            "Royal Palace of Madrid, Madrid, Spain";
            "Almudena Cathedral, Madrid, Spain";
            "Toledo Cathedral, Toledo, Spain" ].
Proof.
  assert (P : Permutation [2; 0; 1] (range 3)).
  { change (range 3) with [0; 1; 2].
    apply (perm_trans (l' := [0; 2; 1])).
    - apply perm_swap.
    - apply perm_skip, perm_swap. }
  split; [exact P|].
  exact (proj1 (endpoints_fixed
                  "Royal Monastery of El Escorial, San Lorenzo de El Escorial, Spain"
                  "Toledo Cathedral, Toledo, Spain" (slice_1_m1 PLACES)
                  [2; 0; 1] P)).
Defined.

End Endpoints.

(** ** Distances: binary64 arithmetic *)

Module FloatFacts.

Import SpecFloat Py Float.

(** *** Rounding to the nearest integer, ties to even *)

Lemma rhe_cases (a b : Z) :
  0 < b ->
  let q := a / b in
  let r := a mod b in
  a = b * q + r /\ 0 <= r < b
  /\ ((2 * r < b /\ round_half_even a b = q)
      \/ (b < 2 * r /\ round_half_even a b = q + 1)
      \/ (2 * r = b /\ round_half_even a b = if Z.even q then q else q + 1)).
Proof.
  intros Hb q r. split; [apply Z.div_mod; lia|].
  split; [apply Z.mod_pos_bound; lia|].
  unfold round_half_even. fold q. fold r.
  destruct (Z.ltb_spec (2 * r) b); [left; auto|].
  destruct (Z.ltb_spec b (2 * r)); [right; left; auto|].
  right; right. split; [lia | reflexivity].
Qed.

(** The rounded value is within one half of the quotient. *)
Lemma rhe_spec (a b : Z) :
  0 < b ->
  2 * b * round_half_even a b - b <= 2 * a <= 2 * b * round_half_even a b + b.
Proof.
  intros Hb. destruct (rhe_cases a b Hb) as (E & R & C).
  destruct C as [[H ->]|[[H ->]|[H ->]]]; try lia.
  destruct (Z.even (a / b)); lia.
Qed.

(** An integer strictly within one half of the quotient is the rounded
    value. *)
Lemma rhe_near (a b z : Z) :
  0 < b ->
  2 * b * z - b < 2 * a < 2 * b * z + b ->
  round_half_even a b = z.
Proof.
  intros Hb Hz. destruct (rhe_cases a b Hb) as (E & R & C).
  set (q := a / b) in *. set (r := a mod b) in *.
  assert (Hq : z = q \/ z = q + 1).
  { assert (b * (z - q) < 2 * b) by lia.
    assert (- b < b * (z - q)) by lia.
    assert (z - q < 2) by nia. assert (-1 < z - q) by nia. lia. }
  destruct C as [[H ->]|[[H ->]|[H ->]]]; destruct Hq as [-> | ->];
    try reflexivity; try lia; exfalso; nia.
Qed.

(** Exactly half way, the even neighbour is taken. *)
Lemma rhe_tie (a b z : Z) :
  0 < b ->
  2 * a = 2 * b * z + b ->
  round_half_even a b = if Z.even z then z else z + 1.
Proof.
  intros Hb Hz. destruct (rhe_cases a b Hb) as (E & R & C).
  set (q := a / b) in *. set (r := a mod b) in *.
  assert (Hq : z = q) by nia. subst z.
  destruct C as [[H ->]|[[H ->]|[H ->]]]; try reflexivity; exfalso; nia.
Qed.

Lemma rhe_exact (z b : Z) : 0 < b -> round_half_even (b * z) b = z.
Proof. intros Hb. apply rhe_near; lia. Qed.

Lemma rhe_scale (c a b : Z) :
  0 < c -> 0 < b -> round_half_even (c * a) (c * b) = round_half_even a b.
Proof.
  intros Hc Hb. unfold round_half_even.
  rewrite Z.div_mul_cancel_l by lia.
  rewrite Z.mul_mod_distr_l by lia.
  replace (2 * (c * (a mod b)) <? c * b) with (2 * (a mod b) <? b).
  2:{ destruct (Z.ltb_spec (2 * (a mod b)) b);
      destruct (Z.ltb_spec (2 * (c * (a mod b))) (c * b)); try reflexivity; nia. }
  replace (c * b <? 2 * (c * (a mod b))) with (b <? 2 * (a mod b)).
  2:{ destruct (Z.ltb_spec b (2 * (a mod b)));
      destruct (Z.ltb_spec (c * b) (2 * (c * (a mod b)))); try reflexivity; nia. }
  reflexivity.
Qed.

Lemma rhe_lower (a b z : Z) :
  0 < b -> b * z <= a -> z <= round_half_even a b.
Proof.
  intros Hb Hz. pose proof (rhe_spec a b Hb).
  destruct (Z.le_gt_cases z (round_half_even a b)); [assumption|].
  exfalso. nia.
Qed.

(** Rounding a quotient by 1000 to a multiple of [1/P] first does not
    change the nearest integer, as soon as [P] is even and above 500. *)
Lemma rhe_twice (m Q : Z) :
  250 < Q ->
  round_half_even (round_half_even (m * (2 * Q)) 1000) (2 * Q)
  = round_half_even m 1000.
Proof.
  intros HQ. set (P := 2 * Q).
  assert (HP : 0 < P) by (unfold P; lia).
  pose proof (rhe_spec (m * P) 1000 ltac:(lia)) as S.
  set (M := round_half_even (m * P) 1000) in *.
  destruct (rhe_cases m 1000 ltac:(lia)) as (E & R & C).
  set (q := m / 1000) in *. set (r := m mod 1000) in *.
  assert (EP : m * P = 1000 * (q * P) + r * P) by (rewrite E at 1; ring).
  destruct C as [[H ->]|[[H ->]|[H ->]]].
  - apply rhe_near; [assumption|].
    assert (r * P <= 499 * P) by nia. assert (0 <= r * P) by nia.
    unfold P in *. nia.
  - apply rhe_near; [assumption|].
    assert (501 * P <= r * P) by nia. assert (r * P <= 999 * P) by nia.
    unfold P in *. nia.
  - assert (r = 500) by lia.
    assert (HM : M = q * P + Q).
    { unfold M. replace (m * P) with (1000 * (q * P + Q))
        by (rewrite EP; unfold P; nia).
      apply rhe_exact. lia. }
    rewrite HM. apply rhe_tie; [assumption|]. unfold P. ring.
Qed.

(** *** The quotient [meters / 1000.0] *)

Lemma floor_log2_bounds (n d : Z) :
  Z.log2 n - Z.log2 d - 1 <= floor_log2 n d <= Z.log2 n - Z.log2 d.
Proof.
  unfold floor_log2.
  destruct (n * 2 ^ Z.max 0 (- (Z.log2 n - Z.log2 d))
            <? d * 2 ^ Z.max 0 (Z.log2 n - Z.log2 d)); lia.
Qed.

Lemma pow2_pos (k : Z) : 0 <= k -> 0 < 2 ^ k.
Proof. intros. apply Z.pow_pos_nonneg; lia. Qed.

Lemma pow2_double (k : Z) : 0 < k -> 2 ^ k = 2 * 2 ^ (k - 1).
Proof.
  intros. replace k with (Z.succ (k - 1)) at 1 by lia.
  apply Z.pow_succ_r. lia.
Qed.

Lemma log2_range (m : Z) : 10000 <= m < 2 ^ 53 -> 13 <= Z.log2 m <= 52.
Proof.
  intros [Hl Hu]. split.
  - change 13 with (Z.log2 10000). apply Z.log2_le_mono. assumption.
  - assert (Z.log2 m < 53) by (apply Z.log2_lt_pow2; lia). lia.
Qed.

(** An int below [2 ^ 53] converts to a float of the same value. *)
Lemma of_int_exact (m : Z) :
  0 < m < 2 ^ 53 ->
  exists p ex,
    of_int m = Ok (S754_finite false p ex)
    /\ -53 <= ex <= 0 /\ Z.pos p = m * 2 ^ (- ex).
Proof.
  intros Hm. unfold of_int.
  replace (m =? 0) with false by (symmetry; apply Z.eqb_neq; lia).
  replace (m <? 0) with false by (symmetry; apply Z.ltb_ge; lia).
  rewrite Z.abs_eq by lia. unfold nearest.
  pose proof (floor_log2_bounds m 1) as B. change (Z.log2 1) with 0 in B.
  assert (L : 0 <= Z.log2 m < 53).
  { split; [apply Z.log2_nonneg | apply Z.log2_lt_pow2; lia]. }
  set (fl := floor_log2 m 1) in *.
  rewrite Z.max_l by lia. set (e := fl - 52).
  assert (He : -53 <= e <= 0) by (unfold e; lia).
  assert (HM : (if 0 <=? e then round_half_even m (1 * 2 ^ e)
                else round_half_even (m * 2 ^ (- e)) 1) = m * 2 ^ (- e)).
  { destruct (Z.leb_spec 0 e).
    - assert (E0 : e = 0) by lia. rewrite E0. simpl.
      rewrite Z.mul_1_r. apply rhe_near; lia.
    - apply rhe_near; lia. }
  rewrite HM. clear HM.
  assert (Hpos : 0 < m * 2 ^ (- e)).
  { apply Z.mul_pos_pos; [lia | apply pow2_pos; lia]. }
  destruct (Z.eqb_spec (m * 2 ^ (- e)) (2 ^ 53)) as [E|NE].
  - assert (e < 0).
    { destruct (Z.eq_dec e 0) as [E0|]; [|lia].
      rewrite E0 in E. simpl in E. lia. }
    replace (971 <? e + 1) with false by (symmetry; apply Z.ltb_ge; lia).
    exists (Z.to_pos (2 ^ 52)), (e + 1). split; [reflexivity|].
    split; [lia|]. rewrite (pow2_double (- e)) in E by lia.
    replace (- (e + 1)) with (- e - 1) by lia.
    change (Z.pos (Z.to_pos (2 ^ 52))) with (2 ^ 52).
    change (2 ^ 53) with (2 * 2 ^ 52) in E. lia.
  - replace (971 <? e) with false by (symmetry; apply Z.ltb_ge; lia).
    exists (Z.to_pos (m * 2 ^ (- e))), e. unfold make. cbn [fst snd].
    destruct (m * 2 ^ (- e)) as [|q|q] eqn:Q; try lia.
    split; [reflexivity|]. split; [lia | reflexivity].
Qed.

(** The float nearest to [m / 1000], from any common multiple by a power
    of two, for [10000 <= m < 2 ^ 53]: its exponent is between -50 and
    -8, it is at least 10, and its nearest integer is that of [m / 1000]. *)
Lemma nearest_scaled (j m : Z) :
  0 <= j -> 10000 <= m < 2 ^ 53 ->
  exists M k,
    nearest (2 ^ j * m) (2 ^ j * 1000) = Some (M, - k)
    /\ 8 <= k <= 50 /\ 0 < M
    /\ round_half_even M (2 ^ k) = round_half_even m 1000
    /\ 10 * 2 ^ k <= M.
Proof.
  intros Hj Hm. unfold nearest.
  pose proof (floor_log2_bounds (2 ^ j * m) (2 ^ j * 1000)) as B.
  rewrite !(Z.mul_comm (2 ^ j)) in B.
  rewrite !Z.log2_mul_pow2 in B by lia.
  change (Z.log2 1000) with 9 in B.
  pose proof (log2_range m Hm) as L.
  rewrite <- !(Z.mul_comm (2 ^ j)) in B.
  set (fl := floor_log2 (2 ^ j * m) (2 ^ j * 1000)) in *.
  rewrite Z.max_l by lia. set (e := fl - 52).
  assert (He : -49 <= e <= -9) by (unfold e; lia).
  replace (0 <=? e) with false by (symmetry; apply Z.leb_gt; lia).
  assert (Hc : 0 < 2 ^ j) by (apply pow2_pos; lia).
  replace (2 ^ j * m * 2 ^ (- e)) with (2 ^ j * (m * 2 ^ (- e))) by ring.
  rewrite rhe_scale by lia.
  set (M0 := round_half_even (m * 2 ^ (- e)) 1000).
  assert (HP : 0 < 2 ^ (- e)) by (apply pow2_pos; lia).
  assert (HQ : 250 < 2 ^ (- e - 1)).
  { assert (2 ^ 8 <= 2 ^ (- e - 1)) by (apply Z.pow_le_mono_r; lia).
    change (2 ^ 8) with 256 in *. lia. }
  assert (T : round_half_even M0 (2 ^ (- e)) = round_half_even m 1000).
  { unfold M0. rewrite (pow2_double (- e)) by lia. now apply rhe_twice. }
  assert (G : 10 * 2 ^ (- e) <= M0).
  { unfold M0. apply rhe_lower; [lia|]. nia. }
  destruct (Z.eqb_spec M0 (2 ^ 53)) as [E|NE].
  - replace (971 <? e + 1) with false by (symmetry; apply Z.ltb_ge; lia).
    exists (2 ^ 52), (- e - 1).
    replace (- (- e - 1)) with (e + 1) by lia.
    split; [reflexivity|]. split; [lia|]. split; [reflexivity|].
    rewrite (pow2_double (- e)) in T, G by lia. split.
    + rewrite <- T, E. change (2 ^ 53) with (2 * 2 ^ 52).
      symmetry. apply rhe_scale; lia.
    + rewrite E in G. change (2 ^ 53) with (2 * 2 ^ 52) in G. lia.
  - replace (971 <? e) with false by (symmetry; apply Z.ltb_ge; lia).
    exists M0, (- e). rewrite Z.opp_involutive.
    split; [reflexivity|]. split; [lia|]. split; [lia|]. split; assumption.
Qed.

(** [meters / 1000.0] for [10000 <= meters < 2 ^ 53]. *)
Lemma int_div_1000_shape (m : Z) :
  10000 <= m < 2 ^ 53 ->
  exists p k,
    int_div_1000 m = Ok (S754_finite false p (- k))
    /\ 8 <= k <= 50
    /\ round_half_even (Z.pos p) (2 ^ k) = round_half_even m 1000
    /\ 10 * 2 ^ k <= Z.pos p.
Proof.
  intros Hm. unfold int_div_1000.
  destruct (of_int_exact m ltac:(lia)) as (px & ex & -> & Hex & Hpx).
  cbn [bind]. unfold truediv, thousand.
  set (a := Z.max 0 (ex - -43)). set (b := Z.max 0 (-43 - ex)).
  assert (Hn : Z.pos px * 2 ^ a = 2 ^ (43 + b) * m).
  { rewrite Hpx. rewrite <- Z.mul_assoc, <- Z.pow_add_r by lia.
    replace (- ex + a) with (43 + b) by lia. ring. }
  assert (Hd : 8796093022208000 * 2 ^ b = 2 ^ (43 + b) * 1000).
  { rewrite Z.pow_add_r by lia. change (2 ^ 43) with 8796093022208. ring. }
  change (Z.pos 8796093022208000) with 8796093022208000.
  rewrite Hn, Hd.
  destruct (nearest_scaled (43 + b) m ltac:(lia) Hm)
    as (M & k & -> & Hk & HM & HR & HG).
  unfold make. cbn [fst snd xorb].
  destruct M as [|q|q]; try lia.
  exists q, k. auto.
Qed.

(** *** Agreement with the Standard Library's IEEE 754 division *)

Definition same_float (x y : spec_float) : bool :=
  match x, y with
  | S754_zero s, S754_zero s' => Bool.eqb s s'
  | S754_infinity s, S754_infinity s' => Bool.eqb s s'
  | S754_nan, S754_nan => true
  | S754_finite s m e, S754_finite s' m' e' =>
      Bool.eqb s s' && Pos.eqb m m' && Z.eqb e e'
  | _, _ => false
  end.

(** [n / 1000.0] with [SFdiv] on the binary64 nearest to [n]. *)
Definition ieee_div_1000 (n : Z) : spec_float :=
  SFdiv 53 1024 (binary_normalize 53 1024 n 0 false)
                (binary_normalize 53 1024 1000 0 false).

Definition agrees (n : Z) : bool :=
  match int_div_1000 n with
  | Ok x => same_float x (ieee_div_1000 n)
  | _ => false
  end.

(** Small distances, distances around [2 ^ 53], powers of three and
    negative powers of seven. *)
Definition probes : list Z :=
  (map (fun k => 7 * Z.of_nat k) (seq 0 500)
   ++ map (fun k => 2 ^ 53 - 200 + Z.of_nat k) (seq 0 400)
   ++ map (fun k => 3 ^ Z.of_nat k) (seq 0 200)
   ++ map (fun k => - 7 ^ Z.of_nat k) (seq 0 100))%list.

Lemma int_div_1000_is_ieee : forallb agrees probes = true.
Proof. vm_compute. reflexivity. Qed.

(** *** [format_distance_meters] *)

Import Route.

(** [n] is an integer nearest to [meters / 1000]. *)
Definition nearest_integer (meters n : Z) : Prop :=
  2 * Z.abs (1000 * n - meters) <= 1000.

(** [t] tenths is nearest to [meters / 1000]. *)
Definition nearest_tenth (meters t : Z) : Prop :=
  2 * Z.abs (100 * t - meters) <= 100.

(** [t] tenths written with one decimal place. *)
Definition one_decimal (t : Z) : string :=
  Str.of_Z (t / 10) ++ "." ++ Str.of_Z (t mod 10).

(** What the specification says of one distance. *)
Definition formatted_as_claimed (meters : Z) : Prop :=
  (10000 <= meters ->
   exists n,
     format_distance_meters meters = Ok (Str.of_Z n ++ " km")
     /\ nearest_integer meters n)
  /\ (meters < 10000 ->
      exists t,
        format_distance_meters meters = Ok (one_decimal t ++ " km")
        /\ nearest_tenth meters t).

Definition tenths_ok (meters t : Z) (text : string) : bool :=
  String.eqb text (one_decimal t ++ " km")
  && (2 * Z.abs (100 * t - meters) <=? 100).

(** Below 10 km: the text is one of the two neighbouring tenths, and a
    nearest one. *)
Definition small_ok (meters : Z) : bool :=
  match format_distance_meters meters with
  | Ok text =>
      tenths_ok meters (meters / 100) text
      || tenths_ok meters (meters / 100 + 1) text
  | _ => false
  end.

Lemma small_all_ok : forallb small_ok (range (Z.to_nat 10000)) = true.
Proof. vm_compute. reflexivity. Qed.

Lemma format_small (meters : Z) :
  0 <= meters < 10000 ->
  exists t,
    format_distance_meters meters = Ok (one_decimal t ++ " km")
    /\ nearest_tenth meters t.
Proof.
  intros H. pose proof small_all_ok as A. rewrite forallb_forall in A.
  assert (I : In meters (range (Z.to_nat 10000))).
  { unfold range. apply in_map_iff. exists (Z.to_nat meters).
    split; [lia|]. apply in_seq. lia. }
  specialize (A meters I). unfold small_ok in A.
  destruct (format_distance_meters meters) as [text| |]; try discriminate.
  unfold tenths_ok, nearest_tenth in *.
  apply orb_true_iff in A.
  destruct A as [A|A]; apply andb_true_iff in A; destruct A as [E N];
    apply String.eqb_eq in E; apply Z.leb_le in N; subst text;
    eexists; split; (reflexivity || eassumption).
Qed.

Lemma format_large (meters : Z) :
  10000 <= meters < 2 ^ 53 ->
  format_distance_meters meters
  = Ok (Str.of_Z (round_half_even meters 1000) ++ " km").
Proof.
  intros H. unfold format_distance_meters.
  destruct (int_div_1000_shape meters H) as (p & k & -> & Hk & HR & HG).
  cbn [bind]. unfold ge_int, round.
  replace (0 <=? - k) with false by (symmetry; apply Z.leb_gt; lia).
  rewrite Z.opp_involutive.
  replace (10 * 2 ^ k <=? Z.pos p) with true by (symmetry; apply Z.leb_le; lia).
  cbn [bind]. now rewrite HR.
Qed.

(** C7, as amended.  For every number of meters from 0 up to, not
    including, [2 ^ 53]: from 10000 meters on the text is an integer
    nearest to [meters / 1000] followed by [" km"]; below 10000 meters
    it is the number of kilometres with exactly one decimal place, a
    tenth nearest to [meters / 1000], followed by [" km"]. *)
Theorem format_distance_meters_rounds (meters : Z) :
  0 <= meters < 2 ^ 53 -> formatted_as_claimed meters.
Proof.
  intros H. split.
  - intros Hl. exists (round_half_even meters 1000). split.
    + apply format_large. lia.
    + unfold nearest_integer.
      pose proof (rhe_spec meters 1000 ltac:(lia)). lia.
  - intros Hs. apply format_small. lia.
Qed.

(** 123.1 km is printed as 123 km. *)
Lemma format_distance_meters_rounds_witness :
  0 <= 123100 < 2 ^ 53
  /\ exists n,
       format_distance_meters 123100 = Ok (Str.of_Z n ++ " km")
       /\ nearest_integer 123100 n.
Proof.
  assert (R : 0 <= 123100 < 2 ^ 53) by (split; [lia | reflexivity]).
  split; [exact R|].
  apply (proj1 (format_distance_meters_rounds 123100 R)). lia.
Defined.

(** Just above [2 ^ 53] meters the int is no longer a float:
    9007199254741499 becomes 9007199254741500.0, the quotient is
    9007199254741.5 and is rounded to the even 9007199254742, while the
    one integer nearest to 9007199254741.499 is 9007199254741.  And an
    int too large for a float, such as [2 ^ 1024], is not formatted at
    all: the conversion raises [OverflowError]. *)
Lemma format_distance_meters_beyond_2_53 :
  format_distance_meters 9007199254741499 = Ok "9007199254742 km"
  /\ ~ formatted_as_claimed 9007199254741499
  /\ format_distance_meters (2 ^ 1024) = Raise OverflowError
  /\ ~ formatted_as_claimed (2 ^ 1024).
Proof.
  assert (E : format_distance_meters 9007199254741499 = Ok "9007199254742 km")
    by (vm_compute; reflexivity).
  assert (F : format_distance_meters (2 ^ 1024) = Raise OverflowError)
    by (vm_compute; reflexivity).
  split; [exact E|]. split; [|split; [exact F|]].
  - intros [H _]. destruct (H ltac:(lia)) as (n & Hf & Hn).
    unfold nearest_integer in Hn.
    assert (n = 9007199254741) by lia. subst n.
    rewrite E in Hf. vm_compute in Hf. discriminate.
  - intros [H _].
    assert (L : 10000 <= 2 ^ 1024) by (apply Z.leb_le; vm_compute; reflexivity).
    destruct (H L) as (n & Hf & _).
    rewrite F in Hf. discriminate.
Qed.

End FloatFacts.

(** ** Two runs of the script *)

Module Runs.

Import Py Route.

(** Without a key: no request, exit code 0. *)
Example run_without_key :
  result (main Sample.runtime0 Sample.world_no_key) = Exit 0
  /\ requests (log (main Sample.runtime0 Sample.world_no_key)) = [].
Proof. split; reflexivity. Qed.

(** With a key and both services answering: two requests, the totals
    of the four legs, and the end of the run. *)
Example run_with_key :
  result (main Sample.runtime0 Sample.world_ok) = Ok tt
  /\ List.length (requests (log (main Sample.runtime0 Sample.world_ok))) = 2%nat
  /\ In (nl ++ "Total Distance: 123 km")
        (printed (log (main Sample.runtime0 Sample.world_ok)))
  /\ In "Total Duration: 1h 59m"
        (printed (log (main Sample.runtime0 Sample.world_ok))).
Proof.
  split; [vm_compute; reflexivity|]. split; [vm_compute; reflexivity|].
  split; vm_compute; tauto.
Qed.

End Runs.

(** * Further properties of the script *)

(** ** More on percent-encoding *)

Module QuoteMore.

Import Quote QuoteFacts.

Lemma quote_cons safe c v :
  quote safe (String c v) = quote_byte safe c ++ quote safe v.
Proof. reflexivity. Qed.

Lemma percent_not_always_safe : Str.mem "%" ALWAYS_SAFE = false.
Proof. reflexivity. Qed.

Lemma decode_quote_byte safe c rest :
  Str.mem "%" safe = false ->
  percent_decode (quote_byte safe c ++ rest) = String c (percent_decode rest).
Proof.
  intros Hs. unfold quote_byte.
  destruct (Str.mem c ALWAYS_SAFE || Str.mem c safe) eqn:K.
  - assert (N : Ascii.eqb c "%" = false).
    { destruct (Ascii.eqb_spec c "%") as [->|]; [|reflexivity].
      rewrite percent_not_always_safe, Hs in K. discriminate. }
    simpl. now rewrite N.
  - unfold pct. cbn [append percent_decode].
    destruct (hex_roundtrip c) as (Hh & Hl & _).
    change (Ascii.eqb "%" "%") with true. cbv iota.
    now rewrite Hh, Hl, byte_of_hex.
Qed.

Lemma quote_round_trip safe v :
  Str.mem "%" safe = false -> percent_decode (quote safe v) = v.
Proof.
  intros Hs. induction v as [|c v IH]; [reflexivity|].
  rewrite quote_cons, decode_quote_byte by assumption. now rewrite IH.
Qed.

(** X1. [urllib.parse.quote] with any set of safe characters is undone
    by percent-decoding, for every text, exactly when ["%"] is not among
    the safe characters: so both uses in the script, with ["-._~|,:"] and
    with no safe character at all, lose nothing. *)
Theorem quote_round_trip_iff (safe : string) :
  (forall v, percent_decode (quote safe v) = v) <-> Str.mem "%" safe = false.
Proof.
  split.
  - intros H. destruct (Str.mem "%" safe) eqn:M; [|reflexivity].
    specialize (H "%41"). cbn [quote] in H. unfold quote_byte in H.
    rewrite M, orb_true_r in H. simpl in H. discriminate.
  - intros Hs v. now apply quote_round_trip.
Qed.

(** A character of encoded text: kept as it is, or the ["%"] sign. *)
Definition encoded_char (c : ascii) : bool := kept c || Ascii.eqb c "%".

Lemma quote_byte_shape c :
  (kept c = true /\ quote_byte default_safe c = String c "")
  \/ (kept c = false /\ quote_byte default_safe c = pct c).
Proof.
  unfold quote_byte. rewrite kept_spec. destruct (kept c); auto.
Qed.

Lemma pct_encoded c : Str.all encoded_char (pct c) = true.
Proof. revert c. apply forall_bytes. vm_compute. reflexivity. Qed.

Lemma string_length_app (a b : string) :
  String.length (a ++ b) = (String.length a + String.length b)%nat.
Proof. induction a as [|x a IH]; simpl; [reflexivity | now rewrite IH]. Qed.

(** X2. The text [_encode_param] returns holds only characters it keeps
    (letters, digits and [-._~|,:]) and ["%"]; it has at least as many
    characters as the UTF-8 encoding of the value has bytes, and at most
    three times as many; and it is the value itself exactly when every
    character of the value is a kept one. *)
Theorem encode_param_alphabet (v : string) :
  Str.all encoded_char (_encode_param v) = true
  /\ (String.length v <= String.length (_encode_param v)
      <= 3 * String.length v)%nat
  /\ (_encode_param v = v <-> Str.all kept v = true).
Proof.
  induction v as [|c v (IHa & IHl & IHe)].
  - repeat split; auto.
  - rewrite quote_default_cons.
    destruct (kept c) eqn:K.
    + cbn [append Str.all String.length]. unfold encoded_char at 1.
      rewrite K, IHa. split; [reflexivity|]. split; [lia|].
      simpl. split.
      * intros E. injection E as E'. now apply IHe.
      * intros A. f_equal. now apply IHe.
    + rewrite StrFacts.all_app, pct_encoded, IHa. split; [reflexivity|].
      rewrite string_length_app. unfold pct. cbn [String.length Str.all].
      rewrite K. split; [lia|]. split; [|discriminate].
      cbn [append]. intros E. apply (f_equal String.length) in E.
      cbn [String.length] in E. lia.
Qed.

End QuoteMore.

(** ** More on the two request URLs and the share link *)

Module LinkMore.

Import Py Route Url PyFacts UrlFacts RunFacts ShareLink.

(** [l[i]] succeeds exactly for [- len l <= i < len l], and a negative
    index counts from the end. *)
Lemma list_getitem_wraps {A} (l : list A) (i : Z) (d : A) :
  - Z.of_nat (List.length l) <= i < Z.of_nat (List.length l) ->
  list_getitem l i
  = Ok (nth (Z.to_nat (i mod Z.of_nat (List.length l))) l d).
Proof.
  intros H. set (n := Z.of_nat (List.length l)) in *.
  destruct (Z.ltb_spec i 0) as [Neg|Pos].
  - unfold list_getitem. fold n.
    replace (i <? 0) with true by (symmetry; apply Z.ltb_lt; lia).
    replace (0 <=? i + n) with true by (symmetry; apply Z.leb_le; lia).
    replace (i + n <? n) with true by (symmetry; apply Z.ltb_lt; lia).
    cbn [andb].
    replace (i mod n) with (i + n).
    2:{ apply (Z.mod_unique i n (-1) (i + n)); [left|]; lia. }
    rewrite (nth_error_nth' l d) by lia. reflexivity.
  - rewrite Z.mod_small by lia. apply list_getitem_nth. lia.
Qed.

Lemma list_getitem_outside {A} (l : list A) (i : Z) :
  i < - Z.of_nat (List.length l) \/ Z.of_nat (List.length l) <= i ->
  list_getitem l i = Raise IndexError.
Proof.
  intros H. unfold list_getitem. set (n := Z.of_nat (List.length l)) in *.
  destruct (Z.ltb_spec i 0).
  - replace (0 <=? i + n) with false by (symmetry; apply Z.leb_gt; lia).
    reflexivity.
  - replace (i <? n) with false by (symmetry; apply Z.ltb_ge; lia).
    now rewrite andb_false_r.
Qed.

(** The places an order selects, negative indices counting from the end. *)
Definition select_wrapping (mid : list string) (order : list Z) : list string :=
  map (fun i => nth (Z.to_nat (i mod Z.of_nat (List.length mid))) mid "") order.

Definition index_ok (n : nat) (i : Z) : Prop :=
  - Z.of_nat n <= i < Z.of_nat n.

Definition index_bad (n : nat) (i : Z) : Prop :=
  i < - Z.of_nat n \/ Z.of_nat n <= i.

Lemma traverse_wrapping (mid : list string) (order : list Z) :
  Forall (index_ok (List.length mid)) order ->
  traverse (list_getitem_json mid) (map JInt order)
  = Ok (select_wrapping mid order).
Proof.
  induction 1 as [|i order Hi _ IH]; [reflexivity|].
  cbn [map traverse list_getitem_json].
  rewrite (list_getitem_wraps mid i "") by exact Hi.
  cbn [bind]. rewrite IH. reflexivity.
Qed.

Lemma traverse_outside (mid : list string) (order : list Z) :
  Exists (index_bad (List.length mid)) order ->
  traverse (list_getitem_json mid) (map JInt order) = Raise IndexError.
Proof.
  induction 1 as [i order Hi|i order _ IH].
  - cbn [map traverse list_getitem_json].
    now rewrite (list_getitem_outside mid i Hi).
  - cbn [map traverse list_getitem_json].
    destruct (list_getitem mid i) as [x|e|c] eqn:E.
    + cbn [bind]. now rewrite IH.
    + cbn [bind]. unfold list_getitem in E.
      destruct ((0 <=? (if i <? 0 then i + Z.of_nat (List.length mid) else i))
                && ((if i <? 0 then i + Z.of_nat (List.length mid) else i)
                    <? Z.of_nat (List.length mid))); [|congruence].
      destruct (nth_error mid _); congruence.
    + unfold list_getitem in E.
      destruct ((0 <=? (if i <? 0 then i + Z.of_nat (List.length mid) else i))
                && ((if i <? 0 then i + Z.of_nat (List.length mid) else i)
                    <? Z.of_nat (List.length mid))); [|discriminate].
      destruct (nth_error mid _); discriminate.
Qed.

(** The link for the waypoints an explicit order picks. *)
Lemma share_link_of_pick first mid last (order : list Z) ws :
  pick_waypoints (first :: mid ++ [last]) (JArr (map JInt order)) = Ok ws ->
  build_gmaps_share_link (first :: mid ++ [last]) (JArr (map JInt order))
  = Ok ("https://www.google.com/maps/dir/" ++ "?"
        ++ Str.join "&" (map pair_text (link_params first last ws))).
Proof.
  intros P. unfold build_gmaps_share_link.
  rewrite first_item_cons, last_item_ends. cbn [bind]. rewrite P.
  cbn [bind]. unfold link_params, waypoints_param. destruct ws; reflexivity.
Qed.

(** X3. Which indices the share link accepts.  For places
    [first :: mid ++ [last]] with [n] middle places and an order given as
    a list of ints: when every index is in [-n, n) the link is built and
    its waypoints are the middle places at those indices, a negative
    index counting from the end; as soon as one index is outside that
    range the function raises [IndexError]. *)
Theorem share_link_index_range first mid last (order : list Z) :
  (Forall (index_ok (List.length mid)) order ->
   exists url,
     build_gmaps_share_link (first :: mid ++ [last]) (JArr (map JInt order))
     = Ok url
     /\ params url = link_params first last (select_wrapping mid order))
  /\ (Exists (index_bad (List.length mid)) order ->
      build_gmaps_share_link (first :: mid ++ [last]) (JArr (map JInt order))
      = Raise IndexError).
Proof.
  split.
  - intros H.
    assert (P : pick_waypoints (first :: mid ++ [last]) (JArr (map JInt order))
                = Ok (select_wrapping mid order)).
    { unfold pick_waypoints. cbn [iter bind]. rewrite slice_ends.
      now apply traverse_wrapping. }
    eexists. split; [apply (share_link_of_pick _ _ _ _ _ P)|].
    apply params_of_query.
    + reflexivity.
    + unfold link_params. discriminate.
    + apply link_params_plain.
  - intros H. unfold build_gmaps_share_link.
    rewrite first_item_cons, last_item_ends. cbn [bind].
    unfold pick_waypoints. cbn [iter bind]. rewrite slice_ends.
    now rewrite (traverse_outside mid order H).
Qed.

(** X4. The degenerate lists.  On an empty list of places both
    [build_gmaps_share_link] and [call_directions] raise [IndexError],
    the latter before any request is sent; on a single place the link has
    that place as origin and as destination and no waypoints. *)
Theorem empty_and_single_place (rt : runtime) (w : world)
    (api_key place : string) (optimized : json) :
  build_gmaps_share_link [] optimized = Raise IndexError
  /\ call_directions rt w api_key [] = (Raise IndexError, [])
  /\ exists url,
       build_gmaps_share_link [place] JNull = Ok url
       /\ params url
          = [("api", "1"); ("origin", place); ("destination", place);
             ("travelmode", "driving")].
Proof.
  split; [reflexivity|]. split; [reflexivity|].
  eexists. split; [reflexivity|].
  apply (params_of_query "https://www.google.com/maps/dir/"
           [("api", "1"); ("origin", place); ("destination", place);
            ("travelmode", "driving")]); [reflexivity|discriminate|reflexivity].
Qed.

(** X5. The Directions request.  For places [first :: mid ++ [last]]
    [call_directions] sends exactly one GET, to the Directions endpoint,
    with [origin] the first place, [destination] the last, [mode=driving],
    [language=en], the API key as [key] and, when there are middle
    places, [waypoints] equal to ["optimize:true|"] followed by the
    middle places joined by ["|"], in their original order. *)
Theorem directions_request (rt : runtime) (w : world)
    (api_key first last : string) (mid : list string) :
  exists url,
    log (call_directions rt w api_key (first :: mid ++ [last])) = [HttpGet url]
    /\ base url = "https://maps.googleapis.com/maps/api/directions/json"
    /\ params url
       = List.app
           [("origin", first); ("destination", last); ("mode", "driving");
            ("language", "en"); ("key", api_key)]
           match mid with
           | [] => []
           | _ => [("waypoints", "optimize:true|" ++ Str.join "|" mid)]
           end.
Proof.
  eexists. split; [|apply params_of_query].
  - rewrite call_directions_run, Itinerary.directions_url_text.
    unfold Itinerary.directions_params. reflexivity.
  - reflexivity.
  - discriminate.
  - destruct mid; reflexivity.
Qed.

End LinkMore.

(** ** The static map request and the saved image *)

Module MapMore.

Import Py Route Url PyFacts UrlFacts RunFacts QuoteFacts.

(** The labels the script means to use: 1 to 9, then A to Z. *)
Definition label_alphabet : string := "123456789ABCDEFGHIJKLMNOPQRSTUVWXYZ".

Definition label_of (i : Z) : string :=
  match String.get (Z.to_nat (i - 1)) label_alphabet with
  | Some c => String c ""
  | None => ""
  end.

(** The marker parameters of the places, numbered from [idx]. *)
Fixpoint marker_params (idx : Z) (places : list string)
  : list (string * string) :=
  match places with
  | [] => []
  | place :: rest =>
      ("markers", "color:blue|label:" ++ label_of idx ++ "|" ++ place)
      :: marker_params (idx + 1) rest
  end.

Definition label_checked (i : Z) : bool :=
  match marker_label i with
  | Ok (Some l) => String.eqb l (label_of i)
  | _ => false
  end.

Lemma labels_checked :
  forallb label_checked (map Z.of_nat (seq 1 35)) = true.
Proof. vm_compute. reflexivity. Qed.

Lemma marker_label_alnum (i : Z) :
  1 <= i <= 35 -> marker_label i = Ok (Some (label_of i)).
Proof.
  intros H. pose proof labels_checked as A. rewrite forallb_forall in A.
  assert (I : In i (map Z.of_nat (seq 1 35))).
  { apply in_map_iff. exists (Z.to_nat i). split; [lia|]. apply in_seq. lia. }
  specialize (A i I). unfold label_checked in A.
  destruct (marker_label i) as [[l|]| |]; try discriminate.
  apply String.eqb_eq in A. now subst.
Qed.

Definition some_value (kv : string * string) : string * option string :=
  (fst kv, Some (snd kv)).

Lemma markers_alnum (places : list string) (idx : Z) :
  1 <= idx -> idx + Z.of_nat (List.length places) <= 36 ->
  markers idx places = Ok (map some_value (marker_params idx places)).
Proof.
  revert idx. induction places as [|p rest IH]; intros idx H1 H2;
    [reflexivity|].
  cbn [List.length] in H2. cbn [markers marker_params map].
  rewrite marker_label_alnum by lia. cbn [bind option_map].
  rewrite IH by lia. reflexivity.
Qed.

Lemma traverse_item_text (items : list (string * string)) :
  traverse item_text (map some_value items) = Ok (map pair_text items).
Proof.
  induction items as [|[k v] items IH]; [reflexivity|].
  cbn [map traverse]. unfold item_text at 1. cbn [some_value fst snd bind].
  rewrite IH. reflexivity.
Qed.

Lemma marker_params_plain idx places :
  forallb plain_key (marker_params idx places) = true.
Proof.
  revert idx. induction places as [|p rest IH]; intros idx; [reflexivity|].
  cbn [marker_params forallb]. now rewrite IH.
Qed.

Lemma marker_params_length idx places :
  List.length (marker_params idx places) = List.length places.
Proof.
  revert idx. induction places as [|p rest IH]; intros idx; [reflexivity|].
  cbn [marker_params List.length]. now rewrite IH.
Qed.

Lemma all_ext (p q : ascii -> bool) (s : string) :
  (forall c, p c = q c) -> Str.all p s = Str.all q s.
Proof.
  intros E. induction s as [|c s IH]; [reflexivity|].
  cbn [Str.all]. now rewrite E, IH.
Qed.

(** The parameters of the static map request. *)
Definition static_map_params (api_key polyline : string)
    (ordered_places : list string) : list (string * string) :=
  List.app
    [("size", "800x600"); ("key", api_key);
     ("path", "enc:" ++ quote "" polyline)]
    (marker_params 1 ordered_places).

Lemma static_map_url_text api_key polyline ordered_places :
  (List.length ordered_places <= 35)%nat ->
  static_map_url api_key (JStr polyline) ordered_places
  = Ok ("https://maps.googleapis.com/maps/api/staticmap" ++ "?"
        ++ Str.join "&"
             (map pair_text
                (static_map_params api_key polyline ordered_places))).
Proof.
  intros H. unfold static_map_url.
  rewrite markers_alnum by lia. cbn [bind quote_polyline].
  change [("size", Some "800x600"); ("key", Some api_key);
          ("path", Some ("enc:" ++ quote "" polyline))]
    with (map some_value
            [("size", "800x600"); ("key", api_key);
             ("path", "enc:" ++ quote "" polyline)]).
  rewrite <- map_app, traverse_item_text. reflexivity.
Qed.

(** X6. The static map request.  For a polyline that is text and at
    most 35 ordered places, the URL is the Static Maps endpoint with
    [size=800x600], the API key, the [path] and then one [markers]
    parameter per place, in order, each
    ["color:blue|label:L|place"] with [L] the place's one-character
    label: 1 to 9 for the first nine, then A to Z. *)
Theorem static_map_request (api_key polyline : string)
    (ordered_places : list string) :
  (List.length ordered_places <= 35)%nat ->
  exists url,
    static_map_url api_key (JStr polyline) ordered_places = Ok url
    /\ base url = "https://maps.googleapis.com/maps/api/staticmap"
    /\ params url
       = List.app
           [("size", "800x600"); ("key", api_key);
            ("path", "enc:" ++ quote "" polyline)]
           (marker_params 1 ordered_places)
    /\ List.length (marker_params 1 ordered_places)
       = List.length ordered_places.
Proof.
  intros H. eexists. split; [now apply static_map_url_text|].
  destruct (params_of_query "https://maps.googleapis.com/maps/api/staticmap"
              (static_map_params api_key polyline ordered_places)) as [Hb Hp].
  - reflexivity.
  - unfold static_map_params. discriminate.
  - unfold static_map_params. rewrite forallb_app, marker_params_plain.
    reflexivity.
  - split; [exact Hb|]. split; [exact Hp|]. apply marker_params_length.
Qed.

(** The ten-place itinerary gets the labels 1 to 9 and A. *)
Lemma static_map_request_witness :
  (List.length ["a"; "b"; "c"; "d"; "e"; "f"; "g"; "h"; "i"; "j"] <= 35)%nat
  /\ exists url,
       static_map_url "KEY" (JStr "xyz")
         ["a"; "b"; "c"; "d"; "e"; "f"; "g"; "h"; "i"; "j"] = Ok url
       /\ List.last (params url) ("", "")
          = ("markers", "color:blue|label:A|j").
Proof.
  assert (L : (List.length ["a"; "b"; "c"; "d"; "e"; "f"; "g"; "h"; "i"; "j"]
               <= 35)%nat) by (simpl; lia).
  split; [exact L|].
  destruct (static_map_request "KEY" "xyz"
              ["a"; "b"; "c"; "d"; "e"; "f"; "g"; "h"; "i"; "j"] L)
    as (url & Hu & _ & Hp & _).
  exists url. split; [exact Hu|]. rewrite Hp. reflexivity.
Defined.

Lemma quote_length safe v :
  (String.length v <= String.length (quote safe v))%nat.
Proof.
  induction v as [|c v IH]; [simpl; lia|].
  cbn [quote]. rewrite QuoteMore.string_length_app. unfold quote_byte.
  destruct (Str.mem c ALWAYS_SAFE || Str.mem c safe); simpl; lia.
Qed.

Lemma quote_fixed safe v :
  quote safe v = v
  <-> Str.all (fun c => Str.mem c ALWAYS_SAFE || Str.mem c safe) v = true.
Proof.
  induction v as [|c v IH]; [split; reflexivity|].
  cbn [quote Str.all]. unfold quote_byte.
  destruct (Str.mem c ALWAYS_SAFE || Str.mem c safe) eqn:K.
  - cbn [append andb]. split.
    + intros E. injection E as E. now apply IH.
    + intros A. f_equal. now apply IH.
  - split; [|discriminate]. intros E.
    apply (f_equal String.length) in E. unfold pct in E.
    cbn [append String.length] in E.
    pose proof (quote_length safe v). lia.
Qed.

(** X7. The polyline is percent-encoded twice.  The [path] parameter
    read back from the static map URL is ["enc:"] followed by the
    polyline still percent-encoded (with no safe character); a second
    decoding is needed to get the polyline back, and the parameter is
    ["enc:"] followed by the polyline itself exactly when the polyline
    holds only letters, digits and [_.-~]. *)
Theorem static_map_path_encoded_twice (api_key polyline : string)
    (ordered_places : list string) :
  (List.length ordered_places <= 35)%nat ->
  exists url,
    static_map_url api_key (JStr polyline) ordered_places = Ok url
    /\ value "path" (params url) = Some ("enc:" ++ quote "" polyline)
    /\ percent_decode (quote "" polyline) = polyline
    /\ (value "path" (params url) = Some ("enc:" ++ polyline)
        <-> Str.all (fun c => Str.mem c ALWAYS_SAFE) polyline = true).
Proof.
  intros H. eexists. split; [now apply static_map_url_text|].
  destruct (params_of_query "https://maps.googleapis.com/maps/api/staticmap"
              (static_map_params api_key polyline ordered_places)) as [_ Hp].
  - reflexivity.
  - unfold static_map_params. discriminate.
  - unfold static_map_params. rewrite forallb_app, marker_params_plain.
    reflexivity.
  - assert (V : value "path"
                  (static_map_params api_key polyline ordered_places)
                = Some ("enc:" ++ quote "" polyline)) by reflexivity.
    rewrite Hp, V.
    split; [reflexivity|]. split.
    + apply QuoteMore.quote_round_trip. reflexivity.
    + rewrite (all_ext (fun c => Str.mem c ALWAYS_SAFE)
                 (fun c => Str.mem c ALWAYS_SAFE || Str.mem c "") polyline)
        by (intros c; cbn [Str.mem]; now rewrite orb_false_r).
      rewrite <- quote_fixed. split.
      * intros E. injection E as E. exact E.
      * intros A. now rewrite A.
Qed.

(** A polyline with an [@] in it reaches the service as [%40]. *)
Lemma static_map_path_encoded_twice_witness :
  (List.length ["a"; "b"] <= 35)%nat
  /\ exists url,
       static_map_url "KEY" (JStr "a@b") ["a"; "b"] = Ok url
       /\ value "path" (params url) = Some "enc:a%40b".
Proof.
  assert (L : (List.length ["a"; "b"] <= 35)%nat) by (simpl; lia).
  split; [exact L|].
  destruct (static_map_path_encoded_twice "KEY" "a@b" ["a"; "b"] L)
    as (url & Hu & Hp & _).
  exists url. split; [exact Hu | exact Hp].
Defined.

End MapMore.

(** ** Files, exits and what is printed *)

Module RunMore.

Import Py Route Url PyFacts UrlFacts RunFacts MainFacts ShareLink.
Local Open Scope py_scope.

(** What is done to files, in order: the opens and the writes. *)
Fixpoint files (l : list event) : list event :=
  match l with
  | [] => []
  | FileOpen path :: l' => FileOpen path :: files l'
  | FileWrite path data :: l' => FileWrite path data :: files l'
  | _ :: l' => files l'
  end.

Lemma files_app l l' : files (l ++ l') = (files l ++ files l')%list.
Proof.
  induction l as [|[s|u|p|p d] l IH]; simpl; rewrite ?IH; reflexivity.
Qed.

Lemma files_prints ls : files (map Print ls) = [].
Proof. induction ls as [|s ls IH]; simpl; [|rewrite IH]; reflexivity. Qed.

(** A computation that touches no file. *)
Definition dry {A} (m : io A) : Prop := files (log m) = [].

Lemma dry_lift {A} (o : outcome A) : dry (lift o).
Proof. reflexivity. Qed.

Lemma dry_ret {A} (a : A) : dry (ret a).
Proof. reflexivity. Qed.

Lemma dry_print s : dry (print s).
Proof. reflexivity. Qed.

Lemma dry_print_numbered i l : dry (print_numbered i l).
Proof. unfold dry. rewrite print_numbered_run. apply files_prints. Qed.

Lemma dry_bind {A B} (m : io A) (k : A -> io B) :
  dry m -> (forall a, dry (k a)) -> dry (io_bind m k).
Proof.
  unfold dry. intros Hm Hk. destruct m as [[a|e|c] l]; simpl in *;
    try assumption.
  specialize (Hk a). destruct (k a) as [r l']. simpl in *.
  now rewrite files_app, Hm, Hk.
Qed.

Create HintDb dry.
#[local] Hint Resolve dry_lift dry_ret dry_print dry_print_numbered : dry.

Ltac dry_steps :=
  repeat (apply dry_bind; [auto with dry | intros ?]); auto with dry.

Section WithHost.

Context (rt : runtime) (w : world).

Lemma dry_call_directions api_key places :
  dry (call_directions rt w api_key places).
Proof.
  unfold dry. rewrite call_directions_run.
  destruct (directions_url api_key places); reflexivity.
Qed.

Lemma dry_report api_key : dry (report rt w api_key).
Proof.
  unfold report. apply dry_bind; [apply dry_call_directions|].
  intros info. dry_steps.
Qed.

(** How [save_static_map] can end: the URL cannot be built; the image
    request fails; the file cannot be opened; the file is opened and the
    write fails; all goes well. *)
Lemma save_static_map_cases api_key polyline ordered_places out_path :
  let s := save_static_map w api_key polyline ordered_places out_path in
  (exists e, static_map_url api_key polyline ordered_places = Raise e
             /\ s = (Raise e, []))
  \/ (exists url e,
        static_map_url api_key polyline ordered_places = Ok url
        /\ urlopen_bytes w url = inl e /\ s = (Raise e, [HttpGet url]))
  \/ (exists url img e,
        static_map_url api_key polyline ordered_places = Ok url
        /\ urlopen_bytes w url = inr img
        /\ open_file w out_path = Some e
        /\ s = (Raise e, [HttpGet url]))
  \/ (exists url img e,
        static_map_url api_key polyline ordered_places = Ok url
        /\ urlopen_bytes w url = inr img
        /\ open_file w out_path = None
        /\ write_file w out_path img = Some e
        /\ s = (Raise e, [HttpGet url; FileOpen out_path]))
  \/ (exists url img,
        static_map_url api_key polyline ordered_places = Ok url
        /\ urlopen_bytes w url = inr img
        /\ open_file w out_path = None
        /\ write_file w out_path img = None
        /\ s = (Ok out_path,
                [HttpGet url; FileOpen out_path; FileWrite out_path img])).
Proof.
  intros s. subst s. rewrite save_static_map_run.
  pose proof (Network.static_map_url_ror api_key polyline ordered_places) as N.
  destruct (static_map_url api_key polyline ordered_places) as [url|e|c].
  - destruct (urlopen_bytes w url) as [e|img] eqn:U.
    + right; left. exists url, e. auto.
    + destruct (open_file w out_path) as [e|] eqn:O.
      * right; right; left. exists url, img, e. auto.
      * destruct (write_file w out_path img) as [e|] eqn:F.
        -- right; right; right; left. exists url, img, e. auto.
        -- right; right; right; right. exists url, img. auto.
  - left. exists e. auto.
  - exfalso. exact (N c eq_refl).
Qed.

(** X8. What saving the image does.  [save_static_map] returns only
    its [out_path], and only after it requested the image once, opened
    the file and wrote exactly the bytes received.  When it raises, the
    file is either untouched or was opened (created or emptied) without
    the image being written, and the latter happens only when the write
    itself failed.  When the URL cannot be built (for instance for a
    polyline that is not text) it raises before any request; and it
    never exits the program. *)
Theorem save_static_map_effects (api_key : string) (polyline : json)
    (ordered_places : list string) (out_path : string) :
  let s := save_static_map w api_key polyline ordered_places out_path in
  (forall p,
     result s = Ok p ->
     p = out_path
     /\ exists url img,
          static_map_url api_key polyline ordered_places = Ok url
          /\ urlopen_bytes w url = inr img
          /\ log s
             = [HttpGet url; FileOpen out_path; FileWrite out_path img])
  /\ (forall e,
        result s = Raise e ->
        files (log s) = []
        \/ (files (log s) = [FileOpen out_path]
            /\ exists url img,
                 urlopen_bytes w url = inr img
                 /\ write_file w out_path img = Some e))
  /\ (forall e,
        static_map_url api_key polyline ordered_places = Raise e ->
        s = (Raise e, []))
  /\ ((forall text, polyline <> JStr text) ->
      (List.length ordered_places <= 35)%nat ->
      s = (Raise TypeError, []))
  /\ (forall c, result s <> Exit c).
Proof.
  intros s.
  pose proof (save_static_map_cases api_key polyline ordered_places out_path)
    as C. cbv zeta in C. fold s in C.
  assert (T : forall e, static_map_url api_key polyline ordered_places = Raise e
                        -> s = (Raise e, [])).
  { intros e He. unfold s. now rewrite save_static_map_run, He. }
  split; [|split; [|split; [|split]]].
  - intros p Hp.
    destruct C as [(e & _ & E)|[(url & e & _ & _ & E)
                  |[(url & img & e & _ & _ & _ & E)
                  |[(url & img & e & _ & _ & _ & _ & E)
                  |(url & img & Hu & Hb & _ & _ & E)]]]];
      rewrite E in Hp; try discriminate.
    injection Hp as <-. split; [reflexivity|].
    exists url, img. rewrite E. auto.
  - intros e0 He.
    destruct C as [(e & _ & E)|[(url & e & _ & _ & E)
                  |[(url & img & e & _ & _ & _ & E)
                  |[(url & img & e & _ & Hb & _ & Hw & E)
                  |(url & img & _ & _ & _ & _ & E)]]]];
      rewrite E in He |- *; try discriminate;
      try (left; reflexivity).
    right. split; [reflexivity|]. exists url, img.
    unfold result in He. cbn [fst] in He. injection He as <-. auto.
  - exact T.
  - intros NT L. apply T. unfold static_map_url.
    rewrite MapMore.markers_alnum by lia. cbn [bind].
    destruct polyline; try reflexivity. exfalso. now apply (NT s0).
  - intros c Hc.
    destruct C as [(e & _ & E)|[(url & e & _ & _ & E)
                  |[(url & img & e & _ & _ & _ & E)
                  |[(url & img & e & _ & _ & _ & _ & E)
                  |(url & img & _ & _ & _ & _ & E)]]]];
      rewrite E in Hc; discriminate.
Qed.

(** What a run can have done to files. *)
Definition file_outcome (l : list event) : Prop :=
  files l = []
  \/ files l = [FileOpen "spain_route.png"]
  \/ exists url img,
       urlopen_bytes w url = inr img
       /\ files l
          = [FileOpen "spain_route.png"; FileWrite "spain_route.png" img].

(** X9. Files of a run.  [main] touches at most one file,
    ["spain_route.png"]: it leaves it untouched, or opens it (creating
    or emptying it) and fails to write the image, or opens it and writes
    exactly the bytes the image request returned.  Without an API key
    (unset or empty) no file is touched, and none either when the report
    does not get through. *)
Theorem main_files :
  file_outcome (log (main rt w))
  /\ (environ_api_key w = None \/ environ_api_key w = Some "" ->
      files (log (main rt w)) = [])
  /\ (forall api_key,
        key_set w api_key ->
        (forall r, result (report rt w api_key) <> Ok r) ->
        files (log (main rt w)) = []).
Proof.
  assert (W : files (log (main rt w)) = files (log (body rt w)))
    by now rewrite main_log, files_app, files_prints.
  assert (NK : environ_api_key w = None \/ environ_api_key w = Some "" ->
               files (log (main rt w)) = []).
  { intros H. rewrite W, (body_without_key rt w H). reflexivity. }
  assert (K : forall api_key, key_set w api_key ->
              ((forall r, result (report rt w api_key) <> Ok r) ->
               files (log (main rt w)) = [])
              /\ file_outcome (log (main rt w))).
  { intros api_key Hk. unfold file_outcome.
    rewrite W, (body_with_key rt w api_key Hk).
    pose proof (dry_report api_key) as D. unfold dry in D.
    destruct (result (report rt w api_key)) as [r|e|c] eqn:R.
    - split; [intros N; exfalso; exact (N r eq_refl)|].
      pose proof (main_with_key_run rt w api_key r R) as M. cbv zeta in M.
      pose proof (save_static_map_cases api_key (fst r) (snd r) "spain_route.png")
        as C. cbv zeta in C.
      destruct C as [(e & _ & E)|[(url & e & _ & _ & E)
                    |[(url & img & e & _ & _ & _ & E)
                    |[(url & img & e & _ & _ & _ & _ & E)
                    |(url & img & _ & Hb & _ & _ & E)]]]];
        rewrite E in M; unfold result, log in M; cbn [fst snd] in M;
        rewrite M; unfold log; cbn [snd];
        rewrite !files_app; fold (log (report rt w api_key)); rewrite D;
        cbn [files List.app]; try (left; reflexivity).
      + right; left. reflexivity.
      + right; right. exists url, img. split; [assumption | reflexivity].
    - rewrite (main_with_key_raise rt w api_key e R).
      unfold log. cbn [snd]. fold (log (report rt w api_key)).
      rewrite D. split; [reflexivity | left; reflexivity].
    - unfold main_with_key. rewrite (io_bind_exit _ _ c R).
      unfold log. cbn [snd]. fold (log (report rt w api_key)).
      rewrite D. split; [reflexivity | left; reflexivity]. }
  split; [|split; [exact NK|]].
  - unfold key_set in K.
    destruct (environ_api_key w) as [k|] eqn:E.
    + destruct (String.eqb_spec k "") as [->|NE].
      * left. apply NK. now right.
      * apply (K k). split; [reflexivity|assumption].
    + left. apply NK. now left.
  - intros api_key Hk. apply (K api_key Hk).
Qed.

End WithHost.

End RunMore.

(** ** Exit codes *)

Module Exits.

Import Py Route PyFacts RunFacts MainFacts Network.
Local Open Scope py_scope.

(** [int] of a [str] returns or raises, as every Python function does. *)
Definition int_returns (rt : runtime) : Prop :=
  forall s, returns_or_raises (int_of_str rt s).

Lemma list_getitem_ror {A} (l : list A) i : returns_or_raises (list_getitem l i).
Proof.
  unfold list_getitem.
  destruct ((0 <=? _) && _); [|apply raise_ror].
  destruct (nth_error l _); [apply ok_ror | apply raise_ror].
Qed.

Lemma get_ror d key def : returns_or_raises (get d key def).
Proof. destruct d; simpl; (apply ok_ror || apply raise_ror). Qed.

Lemma iter_ror v : returns_or_raises (iter v).
Proof. destruct v; simpl; (apply ok_ror || apply raise_ror). Qed.

Lemma list_getitem_json_ror {A} (l : list A) i :
  returns_or_raises (list_getitem_json l i).
Proof.
  destruct i; simpl; try apply raise_ror; apply list_getitem_ror.
Qed.

Lemma pick_waypoints_ror places order :
  returns_or_raises (pick_waypoints places order).
Proof.
  unfold pick_waypoints. apply bind_ror; [apply iter_ror|]. intros items.
  apply traverse_ror. intros x. apply list_getitem_json_ror.
Qed.

Lemma ordered_places_of_ror places order :
  returns_or_raises (ordered_places_of places order).
Proof.
  unfold ordered_places_of.
  apply bind_ror; [apply pick_waypoints_ror|]. intros ws.
  apply bind_ror; [apply list_getitem_ror|]. intros a.
  apply bind_ror; [apply list_getitem_ror|]. intros b. apply ok_ror.
Qed.

Lemma build_gmaps_share_link_ror places optimized :
  returns_or_raises (build_gmaps_share_link places optimized).
Proof.
  unfold build_gmaps_share_link.
  apply bind_ror; [apply list_getitem_ror|]. intros a.
  apply bind_ror; [apply list_getitem_ror|]. intros b.
  apply bind_ror; [|intros; apply ok_ror].
  destruct optimized; try apply pick_waypoints_ror. apply ok_ror.
Qed.

Lemma directions_url_ror api_key places :
  returns_or_raises (directions_url api_key places).
Proof.
  unfold directions_url.
  apply bind_ror; [apply list_getitem_ror|]. intros a.
  apply bind_ror; [apply list_getitem_ror|]. intros b. apply ok_ror.
Qed.

Lemma read_directions_ror rt places data :
  returns_or_raises (read_directions rt places data).
Proof.
  unfold read_directions.
  apply bind_ror; [apply get_ror|]. intros status.
  destruct (ne_str status "OK").
  - apply bind_ror; [apply get_ror|]. intros m. apply raise_ror.
  - apply bind_ror.
    { destruct data; simpl; try apply raise_ror.
      destruct (lookup "routes" items); (apply ok_ror || apply raise_ror). }
    intros routes. apply bind_ror.
    { destruct routes as [| | | | s | l | l]; simpl; try apply raise_ror.
      - destruct s; (apply ok_ror || apply raise_ror).
      - apply list_getitem_ror. }
    intros route.
    repeat (apply bind_ror; [apply get_ror | intros ?]). apply ok_ror.
Qed.

Lemma format_distance_meters_ror meters :
  returns_or_raises (format_distance_meters meters).
Proof.
  unfold format_distance_meters. apply bind_ror.
  - unfold Float.int_div_1000. apply bind_ror.
    + unfold Float.of_int. destruct (meters =? 0); [apply ok_ror|].
      destruct (Float.nearest _ _); (apply ok_ror || apply raise_ror).
    + intros x. unfold Float.truediv, Float.thousand.
      destruct x; (apply ok_ror || apply raise_ror).
  - intros km. destruct (Float.ge_int km 10); [|apply ok_ror].
    apply bind_ror; [|intros; apply ok_ror].
    destruct km; simpl; (apply ok_ror || apply raise_ror).
Qed.

Lemma int_ror rt v : int_returns rt -> returns_or_raises (int rt v).
Proof.
  intros H. destruct v; simpl; try apply ok_ror; try apply raise_ror.
  - destruct f; simpl; (apply ok_ror || apply raise_ror).
  - apply H.
Qed.

Lemma totals_ror rt legs a b :
  int_returns rt -> returns_or_raises (totals rt legs a b).
Proof.
  intros H. revert a b. induction legs as [|leg rest IH]; intros a b;
    [apply ok_ror|].
  cbn [totals].
  repeat (apply bind_ror; [apply get_ror | intros ?]).
  apply bind_ror; [now apply int_ror|]. intros d.
  apply bind_ror; [now apply int_ror|]. intros t. apply IH.
Qed.

(** An effectful computation that does not leave through [sys.exit]. *)
Definition stays {A} (m : io A) : Prop := returns_or_raises (result m).

Lemma stays_lift {A} (o : outcome A) : returns_or_raises o -> stays (lift o).
Proof. intros H. exact H. Qed.

Lemma stays_print s : stays (print s).
Proof. apply ok_ror. Qed.

Lemma stays_ret {A} (a : A) : stays (ret a).
Proof. apply ok_ror. Qed.

Lemma stays_print_numbered i l : stays (print_numbered i l).
Proof. unfold stays. rewrite print_numbered_run. apply ok_ror. Qed.

Lemma stays_bind {A B} (m : io A) (k : A -> io B) :
  stays m -> (forall a, stays (k a)) -> stays (io_bind m k).
Proof.
  unfold stays. intros Hm Hk c. destruct m as [[a|e|c'] l]; simpl in *.
  - specialize (Hk a c). destruct (k a) as [r l']. exact Hk.
  - discriminate.
  - exfalso. exact (Hm c' eq_refl).
Qed.

Section WithHost.

Context (rt : runtime) (w : world).

Lemma stays_call_directions api_key places :
  stays (call_directions rt w api_key places).
Proof.
  unfold stays. rewrite call_directions_run.
  pose proof (directions_url_ror api_key places) as D.
  destruct (directions_url api_key places) as [url|e|c].
  - unfold result. cbn [fst].
    apply bind_ror; [|intros; apply read_directions_ror].
    destruct (urlopen_json w url); (apply ok_ror || apply raise_ror).
  - apply raise_ror.
  - exfalso. exact (D c eq_refl).
Qed.

Lemma stays_report api_key : int_returns rt -> stays (report rt w api_key).
Proof.
  intros H. unfold report.
  apply stays_bind; [apply stays_call_directions|]. intros info.
  apply stays_bind; [apply stays_lift, ordered_places_of_ror|]. intros op.
  apply stays_bind; [apply stays_lift, iter_ror|]. intros ll.
  apply stays_bind; [apply stays_lift; now apply totals_ror|]. intros tot.
  apply stays_bind; [apply stays_print|]. intros _.
  apply stays_bind; [apply stays_print_numbered|]. intros _.
  apply stays_bind; [apply stays_lift, format_distance_meters_ror|]. intros d.
  apply stays_bind; [apply stays_print|]. intros _.
  apply stays_bind; [apply stays_print|]. intros _.
  apply stays_bind; [apply stays_lift, build_gmaps_share_link_ror|]. intros l.
  apply stays_bind; [apply stays_print|]. intros _.
  apply stays_bind; [apply stays_print|]. intros _.
  apply stays_ret.
Qed.

Lemma main_with_key_ends api_key :
  int_returns rt ->
  result (main_with_key rt w api_key) = Ok tt
  \/ exists e, result (main_with_key rt w api_key) = Raise e.
Proof.
  intros H. pose proof (stays_report api_key H) as S.
  destruct (result (report rt w api_key)) as [r|e|c] eqn:R.
  - pose proof (main_with_key_run rt w api_key r R) as M. cbv zeta in M.
    pose proof (save_static_map_ror w api_key (fst r) (snd r) "spain_route.png")
      as N.
    rewrite M.
    destruct (result (save_static_map w api_key (fst r) (snd r)
                        "spain_route.png")) as [p|e|c];
      [left; reflexivity | left; reflexivity | exfalso; exact (N c eq_refl)].
  - right. exists e. now rewrite (main_with_key_raise rt w api_key e R).
  - exfalso. exact (S c R).
Qed.

(** X10. How a run ends.  [main] leaves through [sys.exit] exactly when
    GOOGLE_MAPS_API_KEY is unset or empty, and then with code 0; with a
    key it completes or ends with an exception. *)
Theorem main_exit_code :
  int_returns rt ->
  (environ_api_key w = None \/ environ_api_key w = Some "" ->
   result (main rt w) = Exit 0)
  /\ (forall c,
        result (main rt w) = Exit c ->
        c = 0 /\ (environ_api_key w = None \/ environ_api_key w = Some ""))
  /\ (forall api_key,
        key_set w api_key ->
        result (main rt w) = Ok tt \/ exists e, result (main rt w) = Raise e).
Proof.
  intros H.
  assert (NK : environ_api_key w = None \/ environ_api_key w = Some "" ->
               result (main rt w) = Exit 0).
  { intros E. rewrite main_result, (body_without_key rt w E). reflexivity. }
  assert (K : forall api_key, key_set w api_key ->
              result (main rt w) = Ok tt
              \/ exists e, result (main rt w) = Raise e).
  { intros api_key Hk. rewrite main_result, (body_with_key rt w api_key Hk).
    now apply main_with_key_ends. }
  split; [exact NK|]. split; [|exact K].
  intros c Hc. destruct (environ_api_key w) as [k|] eqn:E.
  - destruct (String.eqb_spec k "") as [->|NE].
    + rewrite NK in Hc by now right. injection Hc as <-. auto.
    + exfalso. destruct (K k (conj E NE)) as [X|[e X]];
        rewrite X in Hc; discriminate.
  - rewrite NK in Hc by now left. injection Hc as <-. auto.
Qed.

End WithHost.

(** Without a key the sample run exits with code 0. *)
Lemma main_exit_code_witness :
  int_returns Sample.runtime0
  /\ result (main Sample.runtime0 Sample.world_no_key) = Exit 0.
Proof.
  assert (H : int_returns Sample.runtime0) by (intros s c; discriminate).
  split; [exact H|].
  apply (proj1 (main_exit_code Sample.runtime0 Sample.world_no_key H)).
  now left.
Defined.

End Exits.

(** ** What a run prints, and when it stops short *)

Module Outputs.

Import Py Route Url PyFacts UrlFacts RunFacts MainFacts ShareLink Directions.
Local Open Scope py_scope.

(** Whatever [optimized] is, a link that is built has this shape. *)
Lemma share_link_shape first mid last optimized link :
  build_gmaps_share_link (first :: mid ++ [last]) optimized = Ok link ->
  exists ws,
    link = "https://www.google.com/maps/dir/" ++ "?"
           ++ Str.join "&" (map pair_text (link_params first last ws)).
Proof.
  unfold build_gmaps_share_link.
  rewrite first_item_cons, last_item_ends. cbn [bind].
  destruct (match optimized with
            | JNull => Ok (slice_1_m1 (first :: mid ++ [last]))
            | _ => pick_waypoints (first :: mid ++ [last]) optimized
            end) as [ws|e|c]; cbn [bind]; try discriminate.
  intros E. injection E as <-. exists ws.
  unfold link_params, waypoints_param. destruct ws; reflexivity.
Qed.

Lemma share_link_shape_read first mid last optimized link :
  build_gmaps_share_link (first :: mid ++ [last]) optimized = Ok link ->
  base link = "https://www.google.com/maps/dir/"
  /\ exists ws, params link = link_params first last ws.
Proof.
  intros H. destruct (share_link_shape _ _ _ _ _ H) as (ws & ->).
  destruct (params_of_query "https://www.google.com/maps/dir/"
              (link_params first last ws)) as [Hb Hp].
  - reflexivity.
  - unfold link_params. discriminate.
  - apply link_params_plain.
  - split; [exact Hb|]. now exists ws.
Qed.

(** X11. The endpoints of the share link, whatever the order is.  For
    places [first :: mid ++ [last]] and any value passed as [optimized]
    (a list, [None], a dict, a str, indices repeated or missing), every
    link that [build_gmaps_share_link] returns is a Google Maps
    directions URL with [api=1], the first place as origin, the last
    place as destination and [travelmode=driving]. *)
Theorem share_link_endpoints_any first mid last (optimized : json) link :
  build_gmaps_share_link (first :: mid ++ [last]) optimized = Ok link ->
  base link = "https://www.google.com/maps/dir/"
  /\ value "api" (params link) = Some "1"
  /\ value "origin" (params link) = Some first
  /\ value "destination" (params link) = Some last
  /\ value "travelmode" (params link) = Some "driving".
Proof.
  intros H. destruct (share_link_shape_read _ _ _ _ _ H) as (Hb & ws & Hp).
  rewrite Hp. destruct ws; repeat split; assumption || reflexivity.
Qed.

(** An order that repeats the first waypoint. *)
Lemma share_link_endpoints_any_witness :
  build_gmaps_share_link ["A"; "m"; "n"; "Z"] (JArr [JInt 0; JInt 0])
  = Ok "https://www.google.com/maps/dir/?api=1&origin=A&destination=Z&travelmode=driving&waypoints=m|m"
  /\ value "destination"
       (params "https://www.google.com/maps/dir/?api=1&origin=A&destination=Z&travelmode=driving&waypoints=m|m")
     = Some "Z".
Proof.
  assert (B : build_gmaps_share_link ("A" :: ["m"; "n"] ++ ["Z"])
                (JArr [JInt 0; JInt 0])
              = Ok "https://www.google.com/maps/dir/?api=1&origin=A&destination=Z&travelmode=driving&waypoints=m|m")
    by reflexivity.
  split; [exact B|].
  destruct (share_link_endpoints_any "A" ["m"; "n"] "Z" _ _ B)
    as (_ & _ & _ & D & _).
  exact D.
Defined.

Section WithHost.

Context (rt : runtime) (w : world).

(** X12. A share link is printed by every run that does not fail.  When
    [main] completes, or runs without an API key, one of the lines it
    printed is a share link for the places of the script: the link in
    original order without a key, the link for the order the Directions
    call returned otherwise. *)
Theorem main_prints_link :
  result (main rt w) = Ok tt
  \/ environ_api_key w = None \/ environ_api_key w = Some "" ->
  exists order link,
    build_gmaps_share_link PLACES order = Ok link
    /\ In link (printed (log (main rt w)))
    /\ (environ_api_key w = None \/ environ_api_key w = Some "" ->
        order = JNull).
Proof.
  assert (NK : environ_api_key w = None \/ environ_api_key w = Some "" ->
               exists order link,
                 build_gmaps_share_link PLACES order = Ok link
                 /\ In link (printed (log (main rt w)))
                 /\ (environ_api_key w = None \/ environ_api_key w = Some "" ->
                     order = JNull)).
  { intros E. destruct main_without_key_run as (link & Hl & Hrun).
    exists JNull, link. split; [exact Hl|]. split; [|reflexivity].
    rewrite main_printed, (body_without_key rt w E), Hrun.
    unfold log. cbn [snd]. rewrite printed_prints.
    apply in_or_app. right. unfold no_key_lines. simpl. tauto. }
  intros [Hok|E]; [|now apply NK].
  destruct (environ_api_key w) as [k|] eqn:Ek; [|apply NK; now left].
  destruct (String.eqb_spec k "") as [->|NE]; [apply NK; now right|].
  assert (Hk : key_set w k) by (split; assumption).
  rewrite main_result, (body_with_key rt w k Hk) in Hok.
  destruct (result (report rt w k)) as [r|e|c] eqn:R.
  - destruct (report_ok_run rt w k r R)
      as (distance & seconds & link & info & _ & _ & Hlink & Hlines).
    destruct (Network.main_completes rt w k r Hk R) as (_ & final & Hp).
    exists (waypoint_order info), link. split; [exact Hlink|]. split.
    + rewrite Hp, Hlines. apply in_or_app. right. apply in_or_app. left.
      unfold report_lines. apply in_or_app. right. simpl. tauto.
    + intros [X|X]; [discriminate|]. injection X as ->. contradiction.
  - rewrite (main_with_key_raise rt w k e R) in Hok. discriminate.
  - unfold main_with_key in Hok. rewrite (io_bind_exit _ _ c R) in Hok.
    discriminate.
Qed.

(** X13. A bad answer stops the run before the report.  With the key set
    and an answer [call_directions] accepted: when the waypoint order
    cannot be applied, or the legs cannot be walked or summed, [main]
    ends with that exception having printed the planned stops only and
    sent the one Directions request: no itinerary, no totals, no link,
    no image request. *)
Theorem bad_answer_stops_before_report (api_key : string) (info : Route.info)
    (e : exn) :
  key_set w api_key ->
  result (call_directions rt w api_key PLACES) = Ok info ->
  (ordered_places_of PLACES (waypoint_order info) = Raise e
   \/ (exists op, ordered_places_of PLACES (waypoint_order info) = Ok op)
      /\ (iter (legs info) = Raise e
          \/ exists ll, iter (legs info) = Ok ll
                        /\ totals rt ll 0 0 = Raise e)) ->
  result (main rt w) = Raise e
  /\ printed (log (main rt w)) = header_lines
  /\ requests (log (main rt w))
     = requests (log (call_directions rt w api_key PLACES)).
Proof.
  intros Hk Hc Hbad.
  assert (R : report rt w api_key
              = (Raise e, log (call_directions rt w api_key PLACES))).
  { unfold report. rewrite (io_bind_ok _ _ info Hc). cbv zeta.
    destruct Hbad as [Ho|[(op & Ho) [Hl|(ll & Hl & Ht)]]].
    - rewrite Ho. unfold lift, io_bind, result, log. cbn [fst snd].
      now rewrite app_nil_r.
    - rewrite Ho, io_bind_lift_ok, Hl.
      unfold lift, io_bind, result, log. cbn [fst snd].
      now rewrite app_nil_r.
    - rewrite Ho, io_bind_lift_ok, Hl, io_bind_lift_ok, Ht.
      unfold lift, io_bind, result, log. cbn [fst snd].
      now rewrite app_nil_r. }
  assert (M : main_with_key rt w api_key
              = (Raise e, log (call_directions rt w api_key PLACES))).
  { rewrite (main_with_key_raise rt w api_key e) by now rewrite R.
    now rewrite R. }
  rewrite main_result, main_printed, main_requests,
    (body_with_key rt w api_key Hk), M.
  split; [reflexivity|].
  change (log (Raise e, log (call_directions rt w api_key PLACES)))
    with (log (call_directions rt w api_key PLACES)).
  rewrite printed_call_directions. split; [apply app_nil_r | reflexivity].
Qed.

End WithHost.

(** An answer whose order names a waypoint that does not exist. *)
Definition answer_bad_order : json :=
  JObj [("status", JStr "OK");
        ("routes", JArr [JObj [("waypoint_order", JArr [JInt 0; JInt 3])]])].

Definition world_bad_order : world :=
  Sample.world_of (Some "KEY") answer_bad_order (inr []).

Lemma bad_answer_stops_before_report_witness :
  key_set world_bad_order "KEY"
  /\ result (main Sample.runtime0 world_bad_order) = Raise IndexError
  /\ printed (log (main Sample.runtime0 world_bad_order)) = header_lines.
Proof.
  assert (K : key_set world_bad_order "KEY")
    by (split; [reflexivity | discriminate]).
  split; [exact K|].
  destruct (bad_answer_stops_before_report Sample.runtime0 world_bad_order "KEY"
              {| waypoint_order := JArr [JInt 0; JInt 3];
                 legs := JArr []; polyline := JStr "" |}
              IndexError K eq_refl (or_introl eq_refl)) as (H1 & H2 & _).
  split; assumption.
Defined.

(** The sample run prints its optimized link. *)
Lemma main_prints_link_witness :
  result (main Sample.runtime0 Sample.world_ok) = Ok tt
  /\ exists order link,
       build_gmaps_share_link PLACES order = Ok link
       /\ In link (printed (log (main Sample.runtime0 Sample.world_ok))).
Proof.
  assert (R : result (main Sample.runtime0 Sample.world_ok) = Ok tt)
    by (vm_compute; reflexivity).
  split; [exact R|].
  destruct (main_prints_link Sample.runtime0 Sample.world_ok (or_introl R))
    as (order & link & Hl & Hin & _).
  exists order, link. split; assumption.
Defined.

End Outputs.

(** ** Answers of the Directions service *)

Module Answers.

Import Py Route Url PyFacts UrlFacts RunFacts MainFacts ShareLink Directions.
Local Open Scope py_scope.

Section WithHost.

Context (rt : runtime) (w : world).

Lemma call_directions_result api_key places data :
  answered w api_key places data ->
  result (call_directions rt w api_key places)
  = read_directions rt places data.
Proof.
  intros A. destruct (call_directions_answered rt w _ _ _ A) as (url & _ & E).
  now rewrite E.
Qed.

Lemma read_directions_routes places items :
  field "status" JNull items = JStr "OK" ->
  read_directions rt places (JObj items)
  = bind (getitem_key (JObj items) "routes")
      (fun routes =>
         bind (getitem_0 routes)
           (fun route =>
              bind (get route "waypoint_order"
                      (JArr (map JInt
                               (range (List.length (slice_1_m1 places))))))
                (fun order =>
                   bind (get route "legs" (JArr []))
                     (fun legs =>
                        bind (get route "overview_polyline" (JObj []))
                          (fun overview =>
                             bind (get overview "points" (JStr ""))
                               (fun points =>
                                  Ok {| waypoint_order := order;
                                        legs := legs;
                                        polyline := points |})))))).
Proof.
  intros H. unfold read_directions. simpl get. cbn [bind].
  fold (field "status" JNull items). rewrite H. reflexivity.
Qed.

(** X14. Answers with status ["OK"] but no usable route.  With the
    request answered: an answer that is not a JSON object makes
    [call_directions] raise [AttributeError]; an object with status
    ["OK"] raises [KeyError] when it has no ["routes"], [IndexError] when
    ["routes"] is an empty list, [TypeError] when it is [null], and
    [AttributeError] when its first route is not an object. *)
Theorem ok_answer_without_route (api_key : string) (places : list string)
    (data : json) :
  answered w api_key places data ->
  ((forall items, data <> JObj items) ->
   result (call_directions rt w api_key places) = Raise AttributeError)
  /\ (forall items,
        data = JObj items ->
        field "status" JNull items = JStr "OK" ->
        (lookup "routes" items = None ->
         result (call_directions rt w api_key places)
         = Raise (KeyError "routes"))
        /\ (lookup "routes" items = Some (JArr []) ->
            result (call_directions rt w api_key places) = Raise IndexError)
        /\ (lookup "routes" items = Some JNull ->
            result (call_directions rt w api_key places) = Raise TypeError)
        /\ (forall r rest,
              lookup "routes" items = Some (JArr (r :: rest)) ->
              (forall o, r <> JObj o) ->
              result (call_directions rt w api_key places)
              = Raise AttributeError)).
Proof.
  intros A. rewrite (call_directions_result _ _ _ A). split.
  - intros N. destruct data; try reflexivity. exfalso. now apply (N items).
  - intros items -> Hs. rewrite (read_directions_routes _ _ Hs).
    unfold getitem_key. repeat split.
    + intros ->. reflexivity.
    + intros ->. reflexivity.
    + intros ->. reflexivity.
    + intros r rest -> N. cbn [bind getitem_0].
      rewrite (list_getitem_nth (r :: rest) 0 JNull)
        by (cbn [List.length]; lia).
      cbn [bind Z.to_nat nth].
      destruct r; try reflexivity. exfalso. now apply (N items0).
Qed.

(** X15. A route with nothing in it.  With the key set and an answer
    with status ["OK"] whose first route has no ["waypoint_order"], no
    ["legs"] and no ["overview_polyline"]: the report goes through with
    the places in their original order, totals of zero printed as
    ["0.0 km"] and ["0m"], the same link as without a key, and an empty
    polyline handed to the image step. *)
Theorem bare_route_defaults (api_key : string)
    (items route : list (string * json)) :
  key_set w api_key ->
  answered w api_key PLACES (JObj items) ->
  field "status" JNull items = JStr "OK" ->
  first_route items = Some route ->
  lookup "waypoint_order" route = None ->
  lookup "legs" route = None ->
  lookup "overview_polyline" route = None ->
  exists link,
    build_gmaps_share_link PLACES JNull = Ok link
    /\ result (report rt w api_key) = Ok (JStr "", PLACES)
    /\ printed (log (report rt w api_key))
       = report_lines PLACES "0.0 km" 0 link.
Proof.
  intros Hk A Hs Hr Hw Hl Ho.
  pose proof (call_directions_result _ _ _ A) as C.
  rewrite (read_directions_routes _ _ Hs) in C.
  unfold first_route in Hr. unfold getitem_key in C.
  destruct (lookup "routes" items) as [[| | | | |[|[] rest]|]|];
    try discriminate.
  injection Hr as ->. cbn [bind getitem_0] in C.
  rewrite (list_getitem_nth (JObj route :: rest) 0 JNull) in C
    by (cbn [List.length]; lia).
  cbn [bind Z.to_nat nth get] in C. rewrite Hw, Hl, Ho in C.
  cbn [bind get lookup] in C.
  destruct main_without_key_run as (link & Hlink & _).
  exists link. split; [exact Hlink|].
  assert (Hlink' : build_gmaps_share_link PLACES
                     (JArr (map JInt (range (List.length (slice_1_m1 PLACES)))))
                   = Ok link).
  { rewrite <- Hlink. reflexivity. }
  rewrite (report_run rt w api_key _ PLACES [] 0 0 "0.0 km" link C);
    try reflexivity; try exact Hlink'.
  split; [reflexivity|].
  unfold log at 1. cbn [snd]. rewrite printed_app, printed_prints.
  now rewrite printed_call_directions.
Qed.

End WithHost.

(** An answer with one empty route. *)
Definition answer_bare : json :=
  JObj [("status", JStr "OK"); ("routes", JArr [JObj []])].

Definition world_bare : world :=
  Sample.world_of (Some "KEY") answer_bare (inr []).

Lemma bare_route_defaults_witness :
  key_set world_bare "KEY"
  /\ result (report Sample.runtime0 world_bare "KEY") = Ok (JStr "", PLACES).
Proof.
  assert (K : key_set world_bare "KEY")
    by (split; [reflexivity | discriminate]).
  assert (A : answered world_bare "KEY" PLACES
                (JObj [("status", JStr "OK"); ("routes", JArr [JObj []])]))
    by (eexists; split; reflexivity).
  split; [exact K|].
  destruct (bare_route_defaults Sample.runtime0 world_bare "KEY" _ [] K A
              eq_refl eq_refl eq_refl eq_refl eq_refl) as (link & _ & R & _).
  exact R.
Defined.

(** The answer of the service is a list, not an object. *)
Lemma ok_answer_without_route_witness :
  answered (Sample.world_of (Some "KEY") (JArr []) (inr [])) "KEY" PLACES
    (JArr [])
  /\ result (call_directions Sample.runtime0
               (Sample.world_of (Some "KEY") (JArr []) (inr [])) "KEY" PLACES)
     = Raise AttributeError.
Proof.
  assert (A : answered (Sample.world_of (Some "KEY") (JArr []) (inr []))
                "KEY" PLACES (JArr []))
    by (eexists; split; reflexivity).
  split; [exact A|].
  apply (proj1 (ok_answer_without_route Sample.runtime0 _ "KEY" PLACES _ A)).
  intros items. discriminate.
Defined.

End Answers.

(** ** More on the two formatters *)

Module Formats.

Import SpecFloat Py Route Float.

Lemma hours_of_minutes (s : Z) : s / 3600 = (s / 60) / 60.
Proof. rewrite Z.div_div by lia. reflexivity. Qed.

Lemma minutes_of_minutes (s : Z) : (s mod 3600) / 60 = (s / 60) mod 60.
Proof.
  change 3600 with (60 * 60). rewrite Z.rem_mul_r by lia.
  rewrite Z.mul_comm, Z.div_add by lia.
  rewrite (Z.div_small (s mod 60) 60) by (apply Z.mod_pos_bound; lia).
  reflexivity.
Qed.

(** X16. Seconds are dropped, not rounded: two durations with the same
    number of whole minutes are formatted alike, so every duration prints
    as its whole minutes do, and anything below one minute as ["0m"]. *)
Theorem format_duration_seconds_whole_minutes (s t : Z) :
  s / 60 = t / 60 ->
  format_duration_seconds s = format_duration_seconds t.
Proof.
  intros H. unfold format_duration_seconds.
  now rewrite !hours_of_minutes, !minutes_of_minutes, H.
Qed.

(** 119 seconds print as one minute. *)
Lemma format_duration_seconds_whole_minutes_witness :
  119 / 60 = 60 / 60
  /\ format_duration_seconds 119 = "1m".
Proof.
  assert (E : 119 / 60 = 60 / 60) by reflexivity.
  split; [exact E|].
  rewrite (format_duration_seconds_whole_minutes 119 60 E). reflexivity.
Defined.

(** The same float with the sign set. *)
Definition negated (x : spec_float) : spec_float :=
  match x with
  | S754_zero _ => S754_zero true
  | S754_infinity _ => S754_infinity true
  | S754_nan => S754_nan
  | S754_finite _ m e => S754_finite true m e
  end.

Definition positive (x : spec_float) : Prop :=
  match x with
  | S754_zero s | S754_infinity s | S754_finite s _ _ => s = false
  | S754_nan => False
  end.

Lemma make_negated me : negated (make false me) = make true me.
Proof. unfold make. destruct (fst me); reflexivity. Qed.

Lemma make_positive me : positive (make false me).
Proof. unfold make. destruct (fst me); reflexivity. Qed.

Lemma int_div_1000_negative (m : Z) :
  0 < m ->
  (forall km, int_div_1000 m = Ok km ->
              positive km /\ int_div_1000 (- m) = Ok (negated km))
  /\ (forall e, int_div_1000 m = Raise e -> int_div_1000 (- m) = Raise e).
Proof.
  intros Hm. unfold int_div_1000, of_int.
  replace (m =? 0) with false by (symmetry; apply Z.eqb_neq; lia).
  replace (- m =? 0) with false by (symmetry; apply Z.eqb_neq; lia).
  replace (m <? 0) with false by (symmetry; apply Z.ltb_ge; lia).
  replace (- m <? 0) with true by (symmetry; apply Z.ltb_lt; lia).
  rewrite Z.abs_opp.
  destruct (nearest (Z.abs m) 1) as [me|]; cbn [bind].
  - split; [|intros e; unfold make, truediv, thousand;
              destruct (fst me); discriminate].
    intros km. unfold make. destruct (fst me) as [|p|p];
      unfold truediv, thousand; cbn [xorb]; intros E; injection E as <-;
      try (split; reflexivity).
    destruct (nearest _ _) as [me'|].
    + split; [apply make_positive | now rewrite make_negated].
    + split; reflexivity.
  - split; [intros km; discriminate|]. intros e E. exact E.
Qed.

Lemma ge_int_negated x : positive x -> ge_int (negated x) 10 = false.
Proof.
  destruct x as [s|s| |s m e]; cbn [negated ge_int positive negb];
    try reflexivity; try contradiction.
  intros _. pose proof (Pos2Z.neg_is_neg m) as Nm.
  destruct (0 <=? e) eqn:E.
  - apply Z.leb_gt. apply Z.leb_le in E.
    assert (0 < 2 ^ e) by (apply Z.pow_pos_nonneg; lia).
    assert (Z.neg m * 2 ^ e <= 0) by (apply Z.mul_nonpos_nonneg; lia). lia.
  - apply Z.leb_gt. apply Z.leb_gt in E.
    assert (0 < 2 ^ (- e)) by (apply Z.pow_pos_nonneg; lia). lia.
Qed.

Lemma format_1f_negated x :
  positive x -> format_1f (negated x) = "-" ++ format_1f x.
Proof.
  destruct x as [s|s| |s m e]; simpl; try contradiction; intros ->;
    reflexivity.
Qed.

(** X17. Negative distances.  For a positive number of meters whose
    quotient by 1000.0 is the float [km], the opposite number is always
    formatted with one decimal, as a minus sign followed by the
    one-decimal text of [km], however large it is: the rounding to whole
    kilometres above 10 km is never applied to a negative distance. *)
Theorem format_distance_meters_negative (m : Z) (km : spec_float) :
  0 < m ->
  int_div_1000 m = Ok km ->
  format_distance_meters (- m) = Ok ("-" ++ format_1f km ++ " km").
Proof.
  intros Hm E. destruct (int_div_1000_negative m Hm) as (H & _).
  destruct (H km E) as (P & N).
  unfold format_distance_meters. rewrite N. cbn [bind].
  rewrite (ge_int_negated km P), (format_1f_negated km P). reflexivity.
Qed.

(** 123.456 km the wrong way round. *)
Lemma format_distance_meters_negative_witness :
  0 < 123456
  /\ format_distance_meters 123456 = Ok "123 km"
  /\ format_distance_meters (- 123456) = Ok "-123.5 km".
Proof.
  split; [lia|]. split; [reflexivity|].
  destruct (int_div_1000 123456) as [km| |] eqn:E;
    try (vm_compute in E; discriminate).
  pose proof (format_distance_meters_negative 123456 km ltac:(lia) E) as F.
  cbn [Z.opp] in F. rewrite F.
  vm_compute in E. injection E as <-. reflexivity.
Defined.

End Formats.

(** ** More on the totals loop *)

Module LegsMore.

Import Py Route Totals.
Local Open Scope py_scope.

Section WithRuntime.

Context (rt : runtime).

(** The loop over two lists of legs, one after the other. *)
Lemma totals_app (l1 l2 : list json) (a b : Z) :
  totals rt (l1 ++ l2) a b
  = bind (totals rt l1 a b) (fun p => totals rt l2 (fst p) (snd p)).
Proof.
  revert a b. induction l1 as [|leg l1 IH]; intros a b; [reflexivity|].
  cbn [List.app totals].
  destruct (get leg "distance" (JObj [])) as [x| |]; cbn [bind]; try reflexivity.
  destruct (get x "value" (JInt 0)) as [v| |]; cbn [bind]; try reflexivity.
  destruct (get leg "duration" (JObj [])) as [y| |]; cbn [bind]; try reflexivity.
  destruct (get y "value" (JInt 0)) as [u| |]; cbn [bind]; try reflexivity.
  destruct (int rt (or_else v (JInt 0))) as [d| |]; cbn [bind]; try reflexivity.
  destruct (int rt (or_else u (JInt 0))) as [t| |]; cbn [bind]; try reflexivity.
  apply IH.
Qed.

(** X18. One malformed leg spoils the totals.  After any number of
    well-formed legs, a leg that is not an object, or whose ["distance"]
    or ["duration"] is present but not an object, makes the totals loop
    raise [AttributeError], whatever else the leg holds and whatever
    legs follow: no partial total is returned. *)
Theorem totals_malformed_leg (good : list json) (dts : list (Z * Z))
    (bad : json) (rest : list json) :
  Forall2 measured good dts ->
  ((forall items, bad <> JObj items)
   \/ exists items v,
        bad = JObj items
        /\ (lookup "distance" items = Some v
            \/ lookup "duration" items = Some v)
        /\ forall o, v <> JObj o) ->
  totals rt ((good ++ bad :: rest)%list) 0 0 = Raise AttributeError.
Proof.
  intros G B. rewrite totals_app.
  rewrite (totals_measured rt good dts 0 0 G). cbn [bind fst snd totals].
  destruct B as [N|(items & v & -> & L & N)].
  - destruct bad; try reflexivity. exfalso. now apply (N items).
  - cbn [get].
    assert (D : forall x, lookup "duration" items = Some v ->
                (dur <- Ok match lookup "duration" items with
                           | Some y => y
                           | None => JObj []
                           end ;;
                 dur <- get dur "value" (JInt 0) ;;
                 d <- int rt (or_else x (JInt 0)) ;;
                 t <- int rt (or_else dur (JInt 0)) ;;
                 totals rt rest (0 + sum (map fst dts) + d)
                   (0 + sum (map snd dts) + t))
                = Raise AttributeError).
    { intros x ->. cbn [bind].
      destruct v; try reflexivity. exfalso. now apply (N items0). }
    destruct (lookup "distance" items) as [x|] eqn:Ld.
    + cbn [bind]. destruct x as [| | | | | |o].
      7:{ cbn [get bind]. destruct L as [L|L]; [|now apply D].
          injection L as <-. exfalso. now apply (N o). }
      all: reflexivity.
    + cbn [bind get lookup]. destruct L as [L|L]; [discriminate|].
      now apply D.
Qed.

End WithRuntime.

(** A leg with a well-formed distance whose duration is a text, after
    one good leg. *)
Lemma totals_malformed_leg_witness :
  Forall2 measured [Sample.leg 1200 300] [(1200, 300)]
  /\ totals Sample.runtime0
       [Sample.leg 1200 300;
        JObj [("distance", JObj [("value", JInt 800)]);
              ("duration", JStr "5 mins")];
        Sample.leg 900 240]
       0 0
     = Raise AttributeError.
Proof.
  assert (G : Forall2 measured [Sample.leg 1200 300] [(1200, 300)]).
  { constructor; [|constructor]. eexists. repeat split; reflexivity. }
  split; [exact G|].
  apply (totals_malformed_leg Sample.runtime0 [Sample.leg 1200 300]
           [(1200, 300)]
           (JObj [("distance", JObj [("value", JInt 800)]);
                  ("duration", JStr "5 mins")])
           [Sample.leg 900 240] G).
  right. exists [("distance", JObj [("value", JInt 800)]);
                 ("duration", JStr "5 mins")], (JStr "5 mins").
  split; [reflexivity|]. split; [right; reflexivity|].
  intros o. discriminate.
Defined.

End LegsMore.
